(** * mkmetalink: piece-size selection and the streaming multi-digest hasher

    A shallow embedding of [main.go]: the piece-length heuristic
    [calculatePieceSize], the mirror-URL rules of [main], the [MultiHasher]
    accumulator ([NewMultiHasher], [StartFile], [Write], [EndFile],
    [Finalize]) and the ingestion loop of [main] that drives it.  The
    definitions come first; the properties proved about them follow. *)

From Stdlib.Strings Require Import String Ascii Byte.
From Stdlib Require Import ZArith List Lia Bool.
From Stdlib Require Import Reals Lra.
Import ListNotations.

#[local] Open Scope Z_scope.

(** ** Constants of [main.go] *)

Definition P_MIN : Z := 256 * 1024.
Definition P_CAP : Z := 4 * 1024 * 1024.
Definition P_MAX : Z := 64 * 1024 * 1024.
Definition N_THRESHOLD : Z := 7500.
Definition CHUNK_SIZE : Z := 32 * 1024 * 1024.

(** ** Piece-size selection *)

(** The operations of Go's [float64] and of package [math] that
    [calculatePieceSize] calls.  They live outside the repository, so the
    function is written once over this interface. *)
Record MathOps : Type := {
  float64_t : Type;
  float64 : Z -> float64_t;                 (* float64(x), x an integer *)
  int64 : float64_t -> Z;                   (* int64(f) *)
  math_Floor : float64_t -> float64_t;
  math_Log2 : float64_t -> float64_t;
  math_Pow : float64_t -> float64_t -> float64_t;
  math_Max : float64_t -> float64_t -> float64_t;
  fsub : float64_t -> float64_t -> float64_t;
  fdiv : float64_t -> float64_t -> float64_t;
  fgt : float64_t -> float64_t -> bool
}.

(** [calculatePieceSize], main.go lines 32-61. *)
Definition calculatePieceSize (M : MathOps) (total : Z) : Z :=
  if total <=? 0 then P_MIN
  else
    let logExp :=
      math_Floor M (fsub M (math_Log2 M (float64 M total)) (float64 M 10)) in
    let baseLog :=
      int64 M (math_Max M (float64 M P_MIN) (math_Pow M (float64 M 2) logExp)) in
    let current := baseLog in
    let current := if current >? P_CAP then P_CAP else current in
    let currentPieces := fdiv M (float64 M total) (float64 M current) in
    let current :=
      if fgt M currentPieces (float64 M N_THRESHOLD) then
        let target := fdiv M (float64 M total) (float64 M N_THRESHOLD) in
        let stepped :=
          int64 M (math_Pow M (float64 M 2) (math_Floor M (math_Log2 M target))) in
        let stepped := if stepped <? P_CAP then P_CAP else stepped in
        let stepped := if stepped >? P_MAX then P_MAX else stepped in
        stepped
      else current in
    let current := if current <? P_MIN then P_MIN else current in
    current.

(** Exact arithmetic: [float64] read as the real numbers, [math.Log2] as the
    binary logarithm, [math.Pow] as the real power, [int64(f)] as truncation
    towards zero.  This instance is an idealisation, not Go's [float64]: it
    has no rounding of the 53-bit significand, so what is proved at
    [RealMath] holds of the computation under exact arithmetic only, and
    says nothing of how [math.Log2] and [math.Pow] round. *)
Definition Rtrunc (x : R) : Z :=
  if Rle_dec 0 x then Zfloor x else Zceil x.

Definition RealMath : MathOps := {|
  float64_t := R;
  float64 := IZR;
  int64 := Rtrunc;
  math_Floor := fun x => IZR (Zfloor x);
  math_Log2 := fun x => (ln x / ln 2)%R;
  math_Pow := Rpower;
  math_Max := Rmax;
  fsub := Rminus;
  fdiv := Rdiv;
  fgt := fun x y => if Rgt_dec x y then true else false
|}.

(** The algorithm as section 4.1 of the specification words it, over the
    integers: [floor (log2 n)] is [Z.log2 n], a power of two with a negative
    exponent is below every clamp (and [2 ^ e] is [0] there), and the piece
    count [total_bytes / current] is the integer quotient. *)
Definition select_piece_length (total_bytes : Z) : Z :=
  if total_bytes <=? 0 then P_MIN
  else
    let exp := Z.log2 total_bytes - 10 in
    let base := Z.max P_MIN (2 ^ exp) in
    let current := Z.min base P_CAP in
    let current :=
      if total_bytes / current >? N_THRESHOLD then
        let target := total_bytes / N_THRESHOLD in
        let stepped := 2 ^ Z.log2 target in
        Z.min (Z.max stepped P_CAP) P_MAX
      else current in
    Z.max current P_MIN.

(** The same computation with every floating-point step replaced by the
    integer it denotes under exact arithmetic. *)
Definition calculatePieceSize_exact (total : Z) : Z :=
  if total <=? 0 then P_MIN
  else
    let baseLog := Z.max P_MIN (2 ^ (Z.log2 total - 10)) in
    let current := if baseLog >? P_CAP then P_CAP else baseLog in
    let current :=
      if total >? N_THRESHOLD * current then
        let stepped := 2 ^ Z.log2 (total / N_THRESHOLD) in
        let stepped := if stepped <? P_CAP then P_CAP else stepped in
        let stepped := if stepped >? P_MAX then P_MAX else stepped in
        stepped
      else current in
    if current <? P_MIN then P_MIN else current.

(** The binary exponent of the piece length that exact arithmetic yields. *)
Definition piece_exponent (total : Z) : Z :=
  if total <=? 0 then 18
  else
    let e := Z.log2 total - 10 in
    if e <=? 22 then Z.max 18 e
    else if total >? N_THRESHOLD * P_CAP
         then Z.min (Z.max (Z.log2 (total / N_THRESHOLD)) 22) 26
         else 22.

(** ** Mirror URLs *)

Record MetalinkURL : Type := {
  Priority : Z;
  Value : string
}.

Section Paths.

(** [os.PathSeparator]. *)
Variable Separator : ascii.

Fixpoint in_cutset (c : ascii) (cutset : string) : bool :=
  match cutset with
  | EmptyString => false
  | String d cutset' => Ascii.eqb c d || in_cutset c cutset'
  end.

(** [strings.TrimRight(s, cutset)] for a cutset of one-byte characters. *)
Fixpoint TrimRight (s cutset : string) : string :=
  match s with
  | EmptyString => EmptyString
  | String c s' =>
      match TrimRight s' cutset with
      | EmptyString => if in_cutset c cutset then EmptyString else String c EmptyString
      | t => String c t
      end
  end.

(** [strings.HasSuffix(s, suffix)]:
    [len(s) >= len(suffix) && s[len(s)-len(suffix):] == suffix]. *)
Definition HasSuffix (s suffix : string) : bool :=
  (String.length suffix <=? String.length s)%nat &&
  String.eqb
    (substring (String.length s - String.length suffix) (String.length suffix) s)
    suffix.

(** [strings.ReplaceAll(s, string(old), string(new))] for single bytes. *)
Fixpoint ReplaceAll (s : string) (old new : ascii) : string :=
  match s with
  | EmptyString => EmptyString
  | String c s' => String (if Ascii.eqb c old then new else c) (ReplaceAll s' old new)
  end.

(** [filepath.ToSlash(path)]. *)
Definition ToSlash (path : string) : string :=
  if Ascii.eqb Separator "/" then path else ReplaceAll path Separator "/".

(** The [url] elements of one file, main.go lines 443-458.  [isDir] is
    [info.IsDir()], [fiRelPath] is [fi.RelPath]; [i] counts the mirrors
    already visited and [urls] collects the elements. *)
Fixpoint mirrorLoop (isDir : bool) (fiRelPath relPath : string)
    (i : Z) (mirrors : list string) (urls : list MetalinkURL) : list MetalinkURL :=
  match mirrors with
  | [] => urls
  | m :: mirrors' =>
      let u := (TrimRight m "/" ++ "/" ++ relPath)%string in
      let u := if negb isDir && HasSuffix m fiRelPath then m else u in
      mirrorLoop isDir fiRelPath relPath (i + 1) mirrors'
        (urls ++ [{| Priority := i + 1; Value := u |}])
  end.

Definition fileURLs (isDir : bool) (baseName : string) (mirrors : list string)
    (fiRelPath : string) : list MetalinkURL :=
  let relPath := ToSlash fiRelPath in
  let relPath :=
    if isDir then (baseName ++ "/" ++ ToSlash fiRelPath)%string else relPath in
  mirrorLoop isDir fiRelPath relPath 0 mirrors [].

(** The torrent's [url-list], main.go lines 487-506. *)
Definition torrentURLList (isDir : bool) (baseName : string)
    (mirrors : list string) : list string :=
  if (0 <? Z.of_nat (length mirrors)) then
    if isDir then
      map (fun m => (TrimRight m "/" ++ "/")%string) mirrors
    else
      map (fun m =>
             if HasSuffix m baseName then m
             else (TrimRight m "/" ++ "/" ++ baseName)%string) mirrors
  else [].

(** [strings.Split(s, string(sep))] for a one-byte separator. *)
Fixpoint Split (s : string) (sep : ascii) : list string :=
  match s with
  | EmptyString => [EmptyString]
  | String c s' =>
      if Ascii.eqb c sep then EmptyString :: Split s' sep
      else
        match Split s' sep with
        | [] => [String c EmptyString]
        | h :: t => String c h :: t
        end
  end.

(** [c] occurs in [s]. *)
Fixpoint occurs (c : ascii) (s : string) : Prop :=
  match s with
  | EmptyString => False
  | String d s' => c = d \/ occurs c s'
  end.

(** [s] ends with [x]. *)
Definition ends_with (s x : string) : Prop := exists p, s = (p ++ x)%string.

(** [t] consists of ['/'] characters only. *)
Fixpoint all_slashes (t : string) : Prop :=
  match t with
  | EmptyString => True
  | String c t' => c = "/"%char /\ all_slashes t'
  end.

End Paths.

(** ** Machine integers

    Go's [int64] (and [int], 64 bits wide on the supported platforms) as [Z]
    with two's-complement wrap-around. *)

Definition wrap64 (z : Z) : Z := (z + 2 ^ 63) mod 2 ^ 64 - 2 ^ 63.
Definition add64 (a b : Z) : Z := wrap64 (a + b).
Definition sub64 (a b : Z) : Z := wrap64 (a - b).
Definition is_int64 (z : Z) : Prop := - 2 ^ 63 <= z < 2 ^ 63.

(** [len(s)] of a byte slice. *)
Definition len (s : list byte) : Z := Z.of_nat (List.length s).

(** ** Outcome of a call: a normal return, a run-time panic (slice bounds out
    of range), or the loop budget of the model exhausted. *)

Inductive outcome (A : Type) : Type :=
| Done (a : A)
| Panic
| OutOfFuel.
Arguments Done {A} a.
Arguments Panic {A}.
Arguments OutOfFuel {A}.

Definition bind {A B : Type} (c : outcome A) (k : A -> outcome B) : outcome B :=
  match c with
  | Done a => k a
  | Panic => Panic
  | OutOfFuel => OutOfFuel
  end.

Notation "x <- c ;; k" := (bind c (fun x => k))
  (at level 61, c at next level, right associativity).

(** ** [hex.EncodeToString] *)

Definition hextable : string := "0123456789abcdef".

Definition hexchar (i : N) : ascii :=
  match String.get (N.to_nat i) hextable with
  | Some c => c
  | None => "0"%char
  end.

Fixpoint EncodeToString (src : list byte) : string :=
  match src with
  | [] => EmptyString
  | v :: rest =>
      String (hexchar (N.shiftr (Byte.to_N v) 4))
        (String (hexchar (N.land (Byte.to_N v) 15)) (EncodeToString rest))
  end.

(** ** The hasher's data *)

Record FileHashResult : Type := {
  RelPath : string;
  Size : Z;
  FileSHA256 : string;          (* hex encoded *)
  PieceHashes : list string;    (* hex encoded SHA-256 piece hashes *)
  Err : option string           (* error; nil is None *)
}.

(** A [hash.Hash] is represented by the bytes written to it since its last
    [Reset]: [Write] appends, [Reset] empties, [Sum(nil)] is the digest
    function of the algorithm applied to them.  A [bytes.Buffer] is the list
    of its unread bytes. *)
Record MultiHasher : Type := {
  pieceSize : Z;
  torrentPieceBuffer : list byte;
  torrentPieceSHA1 : list byte;
  torrentPieces : list byte;
  fileSHA256 : list byte;
  filePieceSHA256 : list byte;
  filePieceBuffer : Z;
  currentFilePieceList : list string;
  currentFileByteCount : Z;
  currentFileRelPath : string;
  results : list FileHashResult
}.

(** Field assignments [mh.f = v]. *)
Definition set_torrentPieceBuffer (mh : MultiHasher) (v : list byte) :=
  {| pieceSize := pieceSize mh; torrentPieceBuffer := v;
     torrentPieceSHA1 := torrentPieceSHA1 mh; torrentPieces := torrentPieces mh;
     fileSHA256 := fileSHA256 mh; filePieceSHA256 := filePieceSHA256 mh;
     filePieceBuffer := filePieceBuffer mh;
     currentFilePieceList := currentFilePieceList mh;
     currentFileByteCount := currentFileByteCount mh;
     currentFileRelPath := currentFileRelPath mh; results := results mh |}.

Definition set_torrentPieceSHA1 (mh : MultiHasher) (v : list byte) :=
  {| pieceSize := pieceSize mh; torrentPieceBuffer := torrentPieceBuffer mh;
     torrentPieceSHA1 := v; torrentPieces := torrentPieces mh;
     fileSHA256 := fileSHA256 mh; filePieceSHA256 := filePieceSHA256 mh;
     filePieceBuffer := filePieceBuffer mh;
     currentFilePieceList := currentFilePieceList mh;
     currentFileByteCount := currentFileByteCount mh;
     currentFileRelPath := currentFileRelPath mh; results := results mh |}.

Definition set_torrentPieces (mh : MultiHasher) (v : list byte) :=
  {| pieceSize := pieceSize mh; torrentPieceBuffer := torrentPieceBuffer mh;
     torrentPieceSHA1 := torrentPieceSHA1 mh; torrentPieces := v;
     fileSHA256 := fileSHA256 mh; filePieceSHA256 := filePieceSHA256 mh;
     filePieceBuffer := filePieceBuffer mh;
     currentFilePieceList := currentFilePieceList mh;
     currentFileByteCount := currentFileByteCount mh;
     currentFileRelPath := currentFileRelPath mh; results := results mh |}.

Definition set_fileSHA256 (mh : MultiHasher) (v : list byte) :=
  {| pieceSize := pieceSize mh; torrentPieceBuffer := torrentPieceBuffer mh;
     torrentPieceSHA1 := torrentPieceSHA1 mh; torrentPieces := torrentPieces mh;
     fileSHA256 := v; filePieceSHA256 := filePieceSHA256 mh;
     filePieceBuffer := filePieceBuffer mh;
     currentFilePieceList := currentFilePieceList mh;
     currentFileByteCount := currentFileByteCount mh;
     currentFileRelPath := currentFileRelPath mh; results := results mh |}.

Definition set_filePieceSHA256 (mh : MultiHasher) (v : list byte) :=
  {| pieceSize := pieceSize mh; torrentPieceBuffer := torrentPieceBuffer mh;
     torrentPieceSHA1 := torrentPieceSHA1 mh; torrentPieces := torrentPieces mh;
     fileSHA256 := fileSHA256 mh; filePieceSHA256 := v;
     filePieceBuffer := filePieceBuffer mh;
     currentFilePieceList := currentFilePieceList mh;
     currentFileByteCount := currentFileByteCount mh;
     currentFileRelPath := currentFileRelPath mh; results := results mh |}.

Definition set_filePieceBuffer (mh : MultiHasher) (v : Z) :=
  {| pieceSize := pieceSize mh; torrentPieceBuffer := torrentPieceBuffer mh;
     torrentPieceSHA1 := torrentPieceSHA1 mh; torrentPieces := torrentPieces mh;
     fileSHA256 := fileSHA256 mh; filePieceSHA256 := filePieceSHA256 mh;
     filePieceBuffer := v;
     currentFilePieceList := currentFilePieceList mh;
     currentFileByteCount := currentFileByteCount mh;
     currentFileRelPath := currentFileRelPath mh; results := results mh |}.

Definition set_currentFilePieceList (mh : MultiHasher) (v : list string) :=
  {| pieceSize := pieceSize mh; torrentPieceBuffer := torrentPieceBuffer mh;
     torrentPieceSHA1 := torrentPieceSHA1 mh; torrentPieces := torrentPieces mh;
     fileSHA256 := fileSHA256 mh; filePieceSHA256 := filePieceSHA256 mh;
     filePieceBuffer := filePieceBuffer mh;
     currentFilePieceList := v;
     currentFileByteCount := currentFileByteCount mh;
     currentFileRelPath := currentFileRelPath mh; results := results mh |}.

Definition set_currentFileByteCount (mh : MultiHasher) (v : Z) :=
  {| pieceSize := pieceSize mh; torrentPieceBuffer := torrentPieceBuffer mh;
     torrentPieceSHA1 := torrentPieceSHA1 mh; torrentPieces := torrentPieces mh;
     fileSHA256 := fileSHA256 mh; filePieceSHA256 := filePieceSHA256 mh;
     filePieceBuffer := filePieceBuffer mh;
     currentFilePieceList := currentFilePieceList mh;
     currentFileByteCount := v;
     currentFileRelPath := currentFileRelPath mh; results := results mh |}.

Definition set_currentFileRelPath (mh : MultiHasher) (v : string) :=
  {| pieceSize := pieceSize mh; torrentPieceBuffer := torrentPieceBuffer mh;
     torrentPieceSHA1 := torrentPieceSHA1 mh; torrentPieces := torrentPieces mh;
     fileSHA256 := fileSHA256 mh; filePieceSHA256 := filePieceSHA256 mh;
     filePieceBuffer := filePieceBuffer mh;
     currentFilePieceList := currentFilePieceList mh;
     currentFileByteCount := currentFileByteCount mh;
     currentFileRelPath := v; results := results mh |}.

Definition set_results (mh : MultiHasher) (v : list FileHashResult) :=
  {| pieceSize := pieceSize mh; torrentPieceBuffer := torrentPieceBuffer mh;
     torrentPieceSHA1 := torrentPieceSHA1 mh; torrentPieces := torrentPieces mh;
     fileSHA256 := fileSHA256 mh; filePieceSHA256 := filePieceSHA256 mh;
     filePieceBuffer := filePieceBuffer mh;
     currentFilePieceList := currentFilePieceList mh;
     currentFileByteCount := currentFileByteCount mh;
     currentFileRelPath := currentFileRelPath mh; results := v |}.

(** [NewMultiHasher], main.go lines 198-207; the fields it leaves out take
    their zero values. *)
Definition NewMultiHasher (pieceSize : Z) : MultiHasher :=
  {| pieceSize := pieceSize;
     torrentPieceBuffer := [];
     torrentPieceSHA1 := [];
     torrentPieces := [];
     fileSHA256 := [];
     filePieceSHA256 := [];
     filePieceBuffer := 0;
     currentFilePieceList := [];
     currentFileByteCount := 0;
     currentFileRelPath := EmptyString;
     results := [] |}.

(** [StartFile], main.go lines 209-216. *)
Definition StartFile (mh : MultiHasher) (relPath : string) : MultiHasher :=
  let mh := set_currentFileRelPath mh relPath in
  let mh := set_fileSHA256 mh [] in
  let mh := set_filePieceSHA256 mh [] in
  let mh := set_filePieceBuffer mh 0 in
  let mh := set_currentFilePieceList mh [] in
  let mh := set_currentFileByteCount mh 0 in
  mh.

(** ** The two documents, main.go lines 84-167 and 414-519 *)

Record FileInfo : Type := {
  FileInfo_RelPath : string;
  FileInfo_Size : Z
}.

Record MetaURL : Type := {
  MetaURL_Priority : Z;
  MetaURL_MediaType : string;
  MetaURL_Value : string
}.

Record MetaHash : Type := {
  MetaHash_Type : string;
  MetaHash_Value : string
}.

Record MetaPieceHash : Type := {
  MetaPieceHash_Type : string;
  MetaPieceHash_Value : string
}.

Record MetaPieces : Type := {
  MetaPieces_Type : string;
  MetaPieces_Length : Z;
  MetaPieces_Hashes : list MetaPieceHash
}.

Record MetalinkFile : Type := {
  MetalinkFile_Name : string;
  MetalinkFile_Size : Z;
  MetalinkFile_Hash : MetaHash;
  MetalinkFile_Pieces : MetaPieces;
  MetalinkFile_URLs : list MetalinkURL
}.

Record MetaSignature : Type := {
  MetaSignature_Mediatype : string;
  MetaSignature_Value : string
}.

Record Metalink : Type := {
  Metalink_XMLNs : string;
  Metalink_Version : string;
  Metalink_Metaurls : list MetaURL;
  Metalink_Files : list MetalinkFile;
  Metalink_Signature : option MetaSignature     (* nil is None *)
}.

Record TorrentFileInfo : Type := {
  TorrentFileInfo_Length : Z;
  TorrentFileInfo_Path : list string
}.

Record TorrentInfo : Type := {
  TorrentInfo_PieceLength : Z;
  TorrentInfo_Pieces : list byte;               (* a string of raw bytes *)
  TorrentInfo_Name : string;
  TorrentInfo_Length : Z;
  TorrentInfo_Files : list TorrentFileInfo
}.

Record Torrent : Type := {
  Torrent_Announce : string;
  Torrent_AnnounceList : list (list string);
  Torrent_URLList : list string;
  Torrent_Info : TorrentInfo
}.

(** A [map[string]FileHashResult]: at most one entry per key; an assignment
    replaces the entry of its key; reading a missing key gives the zero
    value. *)
Definition ResultMap : Type := list (string * FileHashResult).

Definition zeroFileHashResult : FileHashResult :=
  {| RelPath := EmptyString; Size := 0; FileSHA256 := EmptyString;
     PieceHashes := []; Err := None |}.

Definition mapAssign (m : ResultMap) (k : string) (v : FileHashResult) : ResultMap :=
  (k, v) :: filter (fun kv => negb (String.eqb (fst kv) k)) m.

Fixpoint mapIndex (m : ResultMap) (k : string) : FileHashResult :=
  match m with
  | [] => zeroFileHashResult
  | (k', v) :: m' => if String.eqb k' k then v else mapIndex m' k
  end.

(** main.go lines 415-418. *)
Definition buildResultMap (results : list FileHashResult) : ResultMap :=
  fold_left (fun m r => mapAssign m (RelPath r) r) results [].

(** The [file] element of one enumerated file, main.go lines 433-473. *)
Definition metalinkFile (Separator : ascii) (isDir : bool) (baseName : string)
    (mirrors : list string) (pieceSize : Z) (resultMap : ResultMap)
    (fi : FileInfo) : MetalinkFile :=
  let r := mapIndex resultMap (FileInfo_RelPath fi) in
  let metaPieceHashes :=
    map (fun h => {| MetaPieceHash_Type := "sha-256"; MetaPieceHash_Value := h |})
        (PieceHashes r) in
  let relPath := ToSlash Separator (FileInfo_RelPath fi) in
  let relPath :=
    if isDir
    then (baseName ++ "/" ++ ToSlash Separator (FileInfo_RelPath fi))%string
    else relPath in
  let urls := fileURLs Separator isDir baseName mirrors (FileInfo_RelPath fi) in
  {| MetalinkFile_Name := relPath;
     MetalinkFile_Size := Size r;
     MetalinkFile_Hash :=
       {| MetaHash_Type := "sha-256"; MetaHash_Value := FileSHA256 r |};
     MetalinkFile_Pieces :=
       {| MetaPieces_Type := "sha-256";
          MetaPieces_Length := pieceSize;
          MetaPieces_Hashes := metaPieceHashes |};
     MetalinkFile_URLs := urls |}.

(** The Metalink document before signing, main.go lines 414-475. *)
Definition buildMetalink (Separator : ascii) (isDir : bool) (baseName : string)
    (mirrors : list string) (pieceSize : Z) (results : list FileHashResult)
    (files : list FileInfo) : Metalink :=
  let resultMap := buildResultMap results in
  let torrentName := (baseName ++ ".torrent")%string in
  {| Metalink_XMLNs := "urn:ietf:params:xml:ns:metalink";
     Metalink_Version := "4.0";
     Metalink_Metaurls :=
       [{| MetaURL_Priority := 1;
           MetaURL_MediaType := "application/x-bittorrent";
           MetaURL_Value := torrentName |}];
     Metalink_Files :=
       map (metalinkFile Separator isDir baseName mirrors pieceSize resultMap) files;
     Metalink_Signature := None |}.

(** The torrent, main.go lines 477-519.  [files[0]] of an empty slice is an
    index-out-of-range panic: [None]. *)
Definition buildTorrent (Separator : ascii) (isDir : bool)
    (baseName tracker : string) (mirrors : list string) (pieceSize : Z)
    (torrentPieces : list byte) (files : list FileInfo) : option Torrent :=
  let urlList := torrentURLList isDir baseName mirrors in
  let info :=
    {| TorrentInfo_PieceLength := pieceSize;
       TorrentInfo_Pieces := torrentPieces;
       TorrentInfo_Name := baseName;
       TorrentInfo_Length := 0;
       TorrentInfo_Files := [] |} in
  if isDir then
    let tFiles :=
      map (fun fi =>
             {| TorrentFileInfo_Length := FileInfo_Size fi;
                TorrentFileInfo_Path := Split (FileInfo_RelPath fi) Separator |})
          files in
    Some {| Torrent_Announce := tracker;
            Torrent_AnnounceList := [];
            Torrent_URLList := urlList;
            Torrent_Info :=
              {| TorrentInfo_PieceLength := TorrentInfo_PieceLength info;
                 TorrentInfo_Pieces := TorrentInfo_Pieces info;
                 TorrentInfo_Name := TorrentInfo_Name info;
                 TorrentInfo_Length := TorrentInfo_Length info;
                 TorrentInfo_Files := tFiles |} |}
  else
    match files with
    | [] => None
    | fi0 :: _ =>
        Some {| Torrent_Announce := tracker;
                Torrent_AnnounceList := [];
                Torrent_URLList := urlList;
                Torrent_Info :=
                  {| TorrentInfo_PieceLength := TorrentInfo_PieceLength info;
                     TorrentInfo_Pieces := TorrentInfo_Pieces info;
                     TorrentInfo_Name := TorrentInfo_Name info;
                     TorrentInfo_Length := FileInfo_Size fi0;
                     TorrentInfo_Files := TorrentInfo_Files info |} |}
    end.

(** What the part of [main] modelled below yields: both documents, the
    [log.Fatalf] exit for an empty enumeration, or a hasher that did not
    return. *)
Inductive main_end : Type :=
| Generated (meta : Metalink) (tor : Torrent)
| Fatal (msg : string)
| Crashed.

(** ** Piece layout of a byte stream

    A window accumulator fed one byte at a time: the bytes of the piece under
    construction are kept until there are [n] of them, then the piece is
    emitted and the window emptied. *)

Definition feed1 (n : Z) (s : list (list byte) * list byte) (b : byte)
  : list (list byte) * list byte :=
  let p := snd s ++ [b] in
  if len p =? n then (fst s ++ [p], []) else (fst s, p).

Definition feed (n : Z) (s : list (list byte) * list byte) (data : list byte)
  : list (list byte) * list byte :=
  fold_left (feed1 n) data s.

(** The pieces of a whole stream: the emitted ones, then the remainder when
    it is not empty. *)
Definition last_piece (r : list byte) : list (list byte) :=
  match r with [] => [] | _ :: _ => [r] end.

Definition pieces_of (n : Z) (data : list byte) : list (list byte) :=
  let s := feed n ([], []) data in fst s ++ last_piece (snd s).

Definition ceil_div (a b : Z) : Z := (a + b - 1) / b.

Fixpoint sumZ (l : list Z) : Z :=
  match l with [] => 0 | x :: l' => x + sumZ l' end.

(** Byte counts [lens] of successive pieces account for [size] bytes with
    piece length [n]: they add up to [size], each is positive and at most
    [n], and each one but the last is exactly [n]. *)
Definition piece_accounting (n size : Z) (lens : list Z) : Prop :=
  sumZ lens = size /\
  forall (i : nat) (k : Z), nth_error lens i = Some k ->
    0 < k <= n /\ ((S i < List.length lens)%nat -> k = n).

Section Hasher.

(** The digest functions of [crypto/sha1] and [crypto/sha256]. *)
Variable sha1 : list byte -> list byte.
Variable sha256 : list byte -> list byte.

(** The first loop of [Write], main.go lines 224-246.  [rest] is
    [data[offset:]], so [len(data) - offset] is [len rest]; every iteration
    costs one unit of [fuel]. *)
Fixpoint filePieceLoop (fuel : nat) (mh : MultiHasher) (rest : list byte)
  : outcome MultiHasher :=
  match rest with
  | [] => Done mh
  | _ :: _ =>
      match fuel with
      | O => OutOfFuel
      | S fuel' =>
          let spaceLeftFile := sub64 (pieceSize mh) (filePieceBuffer mh) in
          let toWriteFile := len rest in
          let toWriteFile :=
            if toWriteFile >? spaceLeftFile then spaceLeftFile else toWriteFile in
          if toWriteFile <? 0 then Panic
          else
            let chunk := firstn (Z.to_nat toWriteFile) rest in
            let mh := set_filePieceSHA256 mh (filePieceSHA256 mh ++ chunk) in
            let mh := set_filePieceBuffer mh (add64 (filePieceBuffer mh) toWriteFile) in
            let mh :=
              if filePieceBuffer mh =? pieceSize mh then
                let h := sha256 (filePieceSHA256 mh) in
                let mh := set_currentFilePieceList mh
                            (currentFilePieceList mh ++ [EncodeToString h]) in
                let mh := set_filePieceSHA256 mh [] in
                set_filePieceBuffer mh 0
              else mh in
            filePieceLoop fuel' mh (skipn (Z.to_nat toWriteFile) rest)
      end
  end.

(** The second loop of [Write], main.go lines 249-269. *)
Fixpoint torrentPieceLoop (fuel : nat) (mh : MultiHasher) (rest : list byte)
  : outcome MultiHasher :=
  match rest with
  | [] => Done mh
  | _ :: _ =>
      match fuel with
      | O => OutOfFuel
      | S fuel' =>
          let spaceLeftTorrent := sub64 (pieceSize mh) (len (torrentPieceBuffer mh)) in
          let toWriteTorrent := len rest in
          let toWriteTorrent :=
            if toWriteTorrent >? spaceLeftTorrent then spaceLeftTorrent
            else toWriteTorrent in
          if toWriteTorrent <? 0 then Panic
          else
            let chunk := firstn (Z.to_nat toWriteTorrent) rest in
            let mh := set_torrentPieceBuffer mh (torrentPieceBuffer mh ++ chunk) in
            let mh := set_torrentPieceSHA1 mh (torrentPieceSHA1 mh ++ chunk) in
            let mh :=
              if len (torrentPieceBuffer mh) =? pieceSize mh then
                let sum := sha1 (torrentPieceSHA1 mh) in
                let mh := set_torrentPieces mh (torrentPieces mh ++ sum) in
                let mh := set_torrentPieceBuffer mh [] in
                set_torrentPieceSHA1 mh []
              else mh in
            torrentPieceLoop fuel' mh (skipn (Z.to_nat toWriteTorrent) rest)
      end
  end.

(** [Write], main.go lines 219-272.  Each loop is given [len(data) + 1]
    iterations. *)
Definition Write (mh : MultiHasher) (data : list byte) : outcome MultiHasher :=
  let mh := set_fileSHA256 mh (fileSHA256 mh ++ data) in
  let mh := set_currentFileByteCount mh
              (add64 (currentFileByteCount mh) (len data)) in
  mh <- filePieceLoop (S (List.length data)) mh data ;;
  torrentPieceLoop (S (List.length data)) mh data.

(** [EndFile], main.go lines 274-294: the new state and the returned value. *)
Definition EndFile (mh : MultiHasher) : MultiHasher * FileHashResult :=
  let fileSHA256Hex := EncodeToString (sha256 (fileSHA256 mh)) in
  let mh :=
    if filePieceBuffer mh >? 0 then
      let h := sha256 (filePieceSHA256 mh) in
      set_currentFilePieceList mh (currentFilePieceList mh ++ [EncodeToString h])
    else mh in
  let result :=
    {| RelPath := currentFileRelPath mh;
       Size := currentFileByteCount mh;
       FileSHA256 := fileSHA256Hex;
       PieceHashes := currentFilePieceList mh;
       Err := None |} in
  (set_results mh (results mh ++ [result]), result).

(** [Finalize], main.go lines 296-302. *)
Definition Finalize (mh : MultiHasher) : MultiHasher :=
  if len (torrentPieceBuffer mh) >? 0 then
    let sum := sha1 (torrentPieceSHA1 mh) in
    set_torrentPieces mh (torrentPieces mh ++ sum)
  else mh.

Definition GetTorrentPieces (mh : MultiHasher) : list byte := torrentPieces mh.
Definition GetResults (mh : MultiHasher) : list FileHashResult := results mh.

(** *** The ingestion loop of [main], lines 356-407

    A file to read is its relative path and the successive results of
    [f.Read(buf)]; a read of [n = 0] bytes is not passed to [Write]. *)
Definition FileReads : Type := (string * list (list byte))%type.

Fixpoint readLoop (mh : MultiHasher) (reads : list (list byte))
  : outcome MultiHasher :=
  match reads with
  | [] => Done mh
  | buf :: reads' =>
      mh <- (if len buf >? 0 then Write mh buf else Done mh) ;;
      readLoop mh reads'
  end.

Fixpoint hashFiles (mh : MultiHasher) (files : list FileReads)
  : outcome MultiHasher :=
  match files with
  | [] => Done mh
  | fi :: files' =>
      let mh := StartFile mh (fst fi) in
      mh <- readLoop mh (snd fi) ;;
      hashFiles (fst (EndFile mh)) files'
  end.

Definition hashAll (pieceSize : Z) (files : list FileReads) : outcome MultiHasher :=
  let mh := NewMultiHasher pieceSize in
  mh <- hashFiles mh files ;;
  Done (Finalize mh).

(** *** [main] from the enumerated files to the two documents, lines 348-519

    [input] is the enumeration, each file with what reading it returns;
    [total] adds up the enumerated sizes as [main] does while walking (for a
    single file it is that file's size).  This is the run in which every
    file opens and is read to its end without error: the [log.Fatalf] exits
    on [os.Open] and [f.Read] failures (lines 372-375 and 391-394) and what
    [main] prints (lines 353, 404, 412) are not part of it, so it describes
    the documents of a completed run, not the ways [main] can end. *)
Definition packageInput (M : MathOps) (Separator : ascii) (isDir : bool)
    (path baseName tracker : string) (mirrors : list string)
    (input : list (FileInfo * list (list byte))) : main_end :=
  let files := map fst input in
  let total := fold_left (fun t fi => add64 t (FileInfo_Size fi)) files 0 in
  if Z.of_nat (length files) =? 0 then
    Fatal ("no files found under " ++ path)
  else
    let pieceSize := calculatePieceSize M total in
    match hashAll pieceSize
            (map (fun x => (FileInfo_RelPath (fst x), snd x)) input) with
    | Done mh =>
        let meta := buildMetalink Separator isDir baseName mirrors pieceSize
                      (GetResults mh) files in
        match buildTorrent Separator isDir baseName tracker mirrors pieceSize
                (GetTorrentPieces mh) files with
        | Some tor => Generated meta tor
        | None => Crashed
        end
    | _ => Crashed
    end.

(** *** Arbitrary call sequences on one hasher *)

Inductive call : Type :=
| CallStartFile (relPath : string)
| CallWrite (data : list byte)
| CallEndFile
| CallFinalize.

Definition exec1 (mh : MultiHasher) (c : call) : outcome MultiHasher :=
  match c with
  | CallStartFile relPath => Done (StartFile mh relPath)
  | CallWrite data => Write mh data
  | CallEndFile => Done (fst (EndFile mh))
  | CallFinalize => Done (Finalize mh)
  end.

Fixpoint exec (mh : MultiHasher) (cs : list call) : outcome MultiHasher :=
  match cs with
  | [] => Done mh
  | c :: cs' => mh <- exec1 mh c ;; exec mh cs'
  end.

(** [Write] once per chunk, in order. *)
Fixpoint writeAll (mh : MultiHasher) (chunks : list (list byte))
  : outcome MultiHasher :=
  match chunks with
  | [] => Done mh
  | c :: chunks' => mh <- Write mh c ;; writeAll mh chunks'
  end.

(** *** Closed forms and the invariant of the hasher *)

Definition digest256 (p : list byte) : string := EncodeToString (sha256 p).

(** What the first loop of [Write] leaves behind, in closed form. *)
Definition file_absorb (mh : MultiHasher) (data : list byte) : MultiHasher :=
  let s := feed (pieceSize mh) ([], filePieceSHA256 mh) data in
  let mh := set_currentFilePieceList mh
              (currentFilePieceList mh ++ map digest256 (fst s)) in
  let mh := set_filePieceSHA256 mh (snd s) in
  set_filePieceBuffer mh (len (snd s)).

(** What the second loop of [Write] leaves behind. *)
Definition torrent_absorb (mh : MultiHasher) (data : list byte) : MultiHasher :=
  let s := feed (pieceSize mh) ([], torrentPieceBuffer mh) data in
  let mh := set_torrentPieces mh
              (torrentPieces mh ++ concat (map sha1 (fst s))) in
  let mh := set_torrentPieceBuffer mh (snd s) in
  set_torrentPieceSHA1 mh (snd s).

Definition absorb (mh : MultiHasher) (data : list byte) : MultiHasher :=
  let mh := set_fileSHA256 mh (fileSHA256 mh ++ data) in
  let mh := set_currentFileByteCount mh
              (add64 (currentFileByteCount mh) (len data)) in
  torrent_absorb (file_absorb mh data) data.

(** The states a hasher can be in between two calls. *)
Record wf (mh : MultiHasher) : Prop := {
  wf_pieceSize : 0 < pieceSize mh < 2 ^ 63;
  wf_file_count : filePieceBuffer mh = len (filePieceSHA256 mh);
  wf_file_room : filePieceBuffer mh < pieceSize mh;
  wf_torrent_hash : torrentPieceSHA1 mh = torrentPieceBuffer mh;
  wf_torrent_room : len (torrentPieceBuffer mh) < pieceSize mh;
  wf_byte_count : is_int64 (currentFileByteCount mh)
}.

(** The bytes of a file as read, and of a whole run. *)
Definition file_bytes (fi : FileReads) : list byte := concat (snd fi).
Definition run_bytes (files : list FileReads) : list byte :=
  concat (map file_bytes files).

(** The result [EndFile] is to record for a file read in full. *)
Definition result_of (ps : Z) (fi : FileReads) : FileHashResult :=
  {| RelPath := fst fi;
     Size := wrap64 (len (file_bytes fi));
     FileSHA256 := digest256 (file_bytes fi);
     PieceHashes := map digest256 (pieces_of ps (file_bytes fi));
     Err := None |}.

(** *** Sample inputs *)

(** A stand-in for a digest function: the identity. *)
Definition plain_digest (d : list byte) : list byte := d.

Definition sample_files : list FileReads :=
  [("a"%string, [[x01; x02; x03; x04; x05]; []; [x06]]);
   ("b"%string, [[x07; x08; x09]])].

Definition sample_chunks : list (list byte) :=
  [[x01; x02]; []; [x03; x04; x05]].

Definition sample_calls : list call :=
  [CallStartFile "a"; CallWrite [x01; x02; x03; x04; x05]; CallWrite [x06];
   CallEndFile; CallStartFile "b"; CallWrite [x07; x08; x09; x0a];
   CallEndFile; CallFinalize].

Definition sample_200KiB : list (list byte) :=
  [repeat x00 (Z.to_nat (200 * 1024))].

Definition sample_100KiB : list (list byte) :=
  [repeat xff (Z.to_nat (100 * 1024))].

Definition slash_mirrors : list string :=
  ["https://example.org/pub//"%string;
   "https://example.com/second_mirror/relevance.zip"%string].

Definition sample_mirrors : list string :=
  ["https://example.com/"%string;
   "https://example.com/second_mirror/relevance.zip"%string].

(** A stand-in for SHA-1 as far as its output size goes: 20 zero bytes. *)
Definition blank_digest20 (d : list byte) : list byte := repeat x00 20.

(** The value of a hexadecimal digit, and the byte two digits denote. *)
Definition hexval (c : ascii) : N :=
  match index 0 (String c EmptyString) hextable with
  | Some i => N.of_nat i
  | None => 0%N
  end.

Fixpoint hex_bytes (s : string) : list (option byte) :=
  match s with
  | String c1 (String c2 s') =>
      Byte.of_N (16 * hexval c1 + hexval c2) :: hex_bytes s'
  | _ => []
  end.

(** The bytes of the piece under construction once [data] has been fed to
    an empty window. *)
Definition partial_piece (n : Z) (data : list byte) : list byte :=
  snd (feed n ([], []) data).

Definition sample_input : list (FileInfo * list (list byte)) :=
  [({| FileInfo_RelPath := "a"; FileInfo_Size := 6 |},
    [[x01; x02; x03; x04; x05]; [x06]]);
   ({| FileInfo_RelPath := "sub/b"; FileInfo_Size := 3 |},
    [[x07; x08; x09]])].

(** * Properties of the hasher *)

Lemma wrap64_small z : is_int64 z -> wrap64 z = z.
Proof.
  unfold is_int64, wrap64. intros H.
  rewrite Z.mod_small; lia.
Qed.

Lemma wrap64_is_int64 z : is_int64 (wrap64 z).
Proof.
  unfold is_int64, wrap64.
  pose proof (Z.mod_pos_bound (z + 2 ^ 63) (2 ^ 64) ltac:(lia)). lia.
Qed.

Lemma add64_add64 a b c : add64 (add64 a b) c = add64 a (b + c).
Proof.
  unfold add64, wrap64. f_equal.
  replace ((a + b + 2 ^ 63) mod 2 ^ 64 - 2 ^ 63 + c + 2 ^ 63)
    with ((a + b + 2 ^ 63) mod 2 ^ 64 + c) by lia.
  rewrite Z.add_mod_idemp_l by lia. f_equal. lia.
Qed.

Lemma feed_nil n s : feed n s [] = s.
Proof. reflexivity. Qed.

Lemma feed_cons n s b d : feed n s (b :: d) = feed n (feed1 n s b) d.
Proof. reflexivity. Qed.

Lemma feed_app n s a b : feed n s (a ++ b) = feed n (feed n s a) b.
Proof. unfold feed. apply fold_left_app. Qed.

Lemma len_app (a b : list byte) : len (a ++ b) = len a + len b.
Proof. unfold len. rewrite length_app. lia. Qed.

Lemma len_nonneg (a : list byte) : 0 <= len a.
Proof. unfold len. lia. Qed.

Lemma feed_emitted n E acc d :
  feed n (E, acc) d =
  (E ++ fst (feed n ([], acc) d), snd (feed n ([], acc) d)).
Proof.
  revert E acc. induction d as [|b d IH]; intros E acc.
  - rewrite !feed_nil. cbn. now rewrite app_nil_r.
  - rewrite !feed_cons. unfold feed1. cbn [fst snd].
    destruct (len (acc ++ [b]) =? n).
    + rewrite (IH (E ++ [acc ++ [b]])), (IH ([] ++ [acc ++ [b]])).
      cbn [fst snd app]. now rewrite <- app_assoc.
    + apply IH.
Qed.

Lemma feed_small n E acc c :
  len acc + len c < n -> feed n (E, acc) c = (E, acc ++ c).
Proof.
  revert acc. induction c as [|b c IH]; intros acc H.
  - rewrite feed_nil. now rewrite app_nil_r.
  - rewrite feed_cons. unfold feed1. cbn [fst snd].
    assert (Hl : len (b :: c) = 1 + len c) by (unfold len; cbn [List.length]; lia).
    assert (Hb : len (acc ++ [b]) = len acc + 1) by (rewrite len_app; reflexivity).
    pose proof (len_nonneg c).
    destruct (Z.eqb_spec (len (acc ++ [b])) n) as [E1 | E1]; [lia|].
    rewrite IH by lia. now rewrite <- app_assoc.
Qed.

Lemma feed_exact n E acc c :
  len acc + len c = n -> c <> [] -> feed n (E, acc) c = (E ++ [acc ++ c], []).
Proof.
  intros H Hc.
  destruct (exists_last Hc) as (c' & b & ->).
  rewrite feed_app.
  assert (Hl : len (c' ++ [b]) = len c' + 1) by (rewrite len_app; reflexivity).
  rewrite feed_small by lia.
  rewrite feed_cons, feed_nil. unfold feed1. cbn [fst snd].
  rewrite <- app_assoc.
  destruct (Z.eqb_spec (len (acc ++ c' ++ [b])) n) as [E1 | E1]; [reflexivity|].
  rewrite len_app in E1. lia.
Qed.

Lemma feed_invariant n E acc d :
  0 < n -> Forall (fun p => len p = n) E -> len acc < n ->
  Forall (fun p => len p = n) (fst (feed n (E, acc) d)) /\
  len (snd (feed n (E, acc) d)) < n /\
  concat (fst (feed n (E, acc) d)) ++ snd (feed n (E, acc) d)
    = concat E ++ acc ++ d.
Proof.
  intros Hn. revert E acc. induction d as [|b d IH]; intros E acc HE Hacc.
  - rewrite feed_nil. cbn [fst snd]. rewrite app_nil_r. auto.
  - rewrite feed_cons. unfold feed1. cbn [fst snd].
    assert (Hb : len (acc ++ [b]) = len acc + 1) by (rewrite len_app; reflexivity).
    destruct (Z.eqb_spec (len (acc ++ [b])) n) as [E1 | E1].
    + destruct (IH (E ++ [acc ++ [b]]) []) as (H1 & H2 & H3).
      * apply Forall_app. split; [exact HE|]. constructor; [exact E1|constructor].
      * cbn. lia.
      * repeat split; try assumption.
        rewrite H3, concat_app. cbn. rewrite app_nil_r, <- !app_assoc. reflexivity.
    + destruct (IH E (acc ++ [b])) as (H1 & H2 & H3); [exact HE | lia |].
      repeat split; try assumption.
      rewrite H3, <- !app_assoc. reflexivity.
Qed.

Lemma sumZ_app a b : sumZ (a ++ b) = sumZ a + sumZ b.
Proof. induction a as [|x a IH]; cbn [sumZ app]; lia. Qed.

Lemma sumZ_len_concat (l : list (list byte)) : sumZ (map len l) = len (concat l).
Proof.
  induction l as [|p l IH]; [reflexivity|].
  cbn [map sumZ concat]. rewrite len_app. lia.
Qed.

Lemma sumZ_full n (E : list (list byte)) :
  Forall (fun p => len p = n) E -> sumZ (map len E) = n * Z.of_nat (List.length E).
Proof.
  induction 1 as [|p E Hp _ IH]; [cbn; lia|].
  cbn [map sumZ List.length]. rewrite IH, Hp. lia.
Qed.

Lemma last_piece_concat r : concat (last_piece r) = r.
Proof. destruct r; [reflexivity|]. cbn. now rewrite app_nil_r. Qed.

Lemma pieces_of_concat n d : 0 < n -> concat (pieces_of n d) = d.
Proof.
  intros Hn. unfold pieces_of.
  destruct (feed_invariant n [] [] d Hn) as (_ & _ & H3); [constructor | cbn; lia |].
  rewrite concat_app, last_piece_concat. exact H3.
Qed.

Lemma pieces_of_accounting n d :
  0 < n -> piece_accounting n (len d) (map len (pieces_of n d)).
Proof.
  intros Hn. split.
  - rewrite sumZ_len_concat, pieces_of_concat by exact Hn. reflexivity.
  - unfold pieces_of.
    destruct (feed_invariant n [] [] d Hn) as (H1 & H2 & _);
      [constructor | cbn; lia |].
    set (E := fst (feed n ([], []) d)) in *.
    set (r := snd (feed n ([], []) d)) in *.
    intros i k Hk. rewrite map_app in Hk. rewrite map_app, length_app, !length_map.
    destruct (Nat.lt_ge_cases i (List.length E)) as [Hi | Hi].
    + rewrite nth_error_app1 in Hk by (now rewrite length_map).
      apply nth_error_In, in_map_iff in Hk. destruct Hk as (p & <- & Hp).
      rewrite Forall_forall in H1. rewrite (H1 p Hp). lia.
    + rewrite nth_error_app2 in Hk by (now rewrite length_map).
      rewrite length_map in Hk.
      destruct r as [|b r']; [destruct (i - List.length E)%nat; discriminate|].
      cbn [last_piece map] in *.
      destruct (i - List.length E)%nat as [|j] eqn:Ej;
        [|destruct j; discriminate].
      cbn in Hk. injection Hk as <-. cbn [List.length].
      split; [|lia].
      unfold len in *. cbn [List.length] in *. lia.
Qed.

Lemma pieces_of_count n d :
  0 < n -> Z.of_nat (List.length (pieces_of n d)) = ceil_div (len d) n.
Proof.
  intros Hn. unfold pieces_of, ceil_div.
  destruct (feed_invariant n [] [] d Hn) as (H1 & H2 & H3);
    [constructor | cbn; lia |].
  set (E := fst (feed n ([], []) d)) in *.
  set (r := snd (feed n ([], []) d)) in *.
  assert (Hd : len d = n * Z.of_nat (List.length E) + len r).
  { cbn [concat app] in H3. rewrite <- H3, len_app, <- sumZ_len_concat.
    now rewrite (sumZ_full n). }
  rewrite length_app, Nat2Z.inj_add, Hd.
  pose proof (len_nonneg r) as Hr.
  destruct r as [|b r'].
  - cbn [last_piece List.length]. change (len []) with 0.
    apply Z.div_unique with (r := n - 1); lia.
  - cbn [last_piece List.length].
    assert (0 < len (b :: r')) by (unfold len; cbn [List.length]; lia).
    apply Z.div_unique with (r := len (b :: r') - 1); lia.
Qed.

Lemma ceil_div_spec (a b : Z) :
  0 < b -> (ceil_div a b - 1) * b < a <= ceil_div a b * b.
Proof.
  intros Hb. unfold ceil_div.
  pose proof (Z.mul_div_le (a + b - 1) b Hb).
  pose proof (Z.mul_succ_div_gt (a + b - 1) b Hb).
  lia.
Qed.

Ltac fields :=
  cbn [pieceSize torrentPieceBuffer torrentPieceSHA1 torrentPieces fileSHA256
       filePieceSHA256 filePieceBuffer currentFilePieceList
       currentFileByteCount currentFileRelPath results
       set_torrentPieceBuffer set_torrentPieceSHA1 set_torrentPieces
       set_fileSHA256 set_filePieceSHA256 set_filePieceBuffer
       set_currentFilePieceList set_currentFileByteCount
       set_currentFileRelPath set_results fst snd] in *.

Ltac norm :=
  cbv beta iota zeta delta
      [pieceSize torrentPieceBuffer torrentPieceSHA1 torrentPieces fileSHA256
       filePieceSHA256 filePieceBuffer currentFilePieceList
       currentFileByteCount currentFileRelPath results
       set_torrentPieceBuffer set_torrentPieceSHA1 set_torrentPieces
       set_fileSHA256 set_filePieceSHA256 set_filePieceBuffer
       set_currentFilePieceList set_currentFileByteCount
       set_currentFileRelPath set_results];
  cbn [fst snd].

Lemma len_firstn (k : Z) (l : list byte) :
  0 <= k <= len l -> len (firstn (Z.to_nat k) l) = k.
Proof. unfold len. intros H. rewrite length_firstn. lia. Qed.

Lemma filePieceLoop_absorb (fuel : nat) :
  forall (mh : MultiHasher) (rest : list byte),
    0 < pieceSize mh < 2 ^ 63 ->
    filePieceBuffer mh = len (filePieceSHA256 mh) ->
    filePieceBuffer mh < pieceSize mh ->
    (length rest <= fuel)%nat ->
    filePieceLoop fuel mh rest = Done (file_absorb mh rest).
Proof.
  induction fuel as [|fuel IH]; intros mh rest Hps Hcnt Hroom Hfuel.
  - destruct rest; [|cbn in Hfuel; lia].
    destruct mh. unfold file_absorb. rewrite feed_nil. fields. norm. subst.
    cbn [map]. now rewrite app_nil_r.
  - destruct rest as [|b r].
    { destruct mh. unfold file_absorb. rewrite feed_nil. fields. norm. subst.
      cbn [map]. now rewrite app_nil_r. }
    cbn [filePieceLoop].
    set (rest := b :: r) in *.
    assert (Hrest : 0 < len rest) by (unfold len, rest; cbn [length]; lia).
    pose proof (len_nonneg (filePieceSHA256 mh)) as Hacc.
    assert (Hsp : sub64 (pieceSize mh) (filePieceBuffer mh)
                  = pieceSize mh - filePieceBuffer mh).
    { apply wrap64_small. unfold is_int64. lia. }
    rewrite Hsp.
    set (k := if len rest >? pieceSize mh - filePieceBuffer mh
              then pieceSize mh - filePieceBuffer mh else len rest).
    assert (Hk : 0 < k <= len rest /\ k <= pieceSize mh - filePieceBuffer mh).
    { subst k. destruct (len rest >? _) eqn:E;
        [apply Z.gtb_lt in E | rewrite Z.gtb_ltb in E; apply Z.ltb_ge in E]; lia. }
    assert (Hneg : (k <? 0) = false) by (apply Z.ltb_ge; lia).
    rewrite Hneg.
    assert (Hadd : add64 (filePieceBuffer mh) k = filePieceBuffer mh + k).
    { apply wrap64_small. unfold is_int64. lia. }
    set (chunk := firstn (Z.to_nat k) rest).
    set (tail := skipn (Z.to_nat k) rest).
    assert (Hsplit : rest = chunk ++ tail) by (symmetry; apply firstn_skipn).
    assert (Hchunk : len chunk = k) by (apply len_firstn; lia).
    assert (Hne : chunk <> []).
    { intros E. rewrite E in Hchunk. cbn in Hchunk. lia. }
    assert (Htail : (length tail <= fuel)%nat).
    { subst tail. rewrite length_skipn. unfold rest in *. cbn [length] in *.
      unfold len in Hk. cbn [length] in Hk. lia. }
    clearbody chunk tail k rest.
    destruct mh as [ps tb ts tp fs acc buf cl cc rp rs].
    fields. norm. rewrite Hadd. subst buf.
    destruct (Z.eqb_spec (len acc + k) ps) as [Hfull | Hpart].
    + rewrite IH; fields; try assumption; try (cbn; lia).
      f_equal. unfold file_absorb. norm.
      rewrite Hsplit, feed_app, (feed_exact ps [] acc chunk) by (assumption || lia).
      cbn [app]. rewrite (feed_emitted ps [acc ++ chunk] [] tail). cbn [fst snd].
      cbn [app map]. rewrite <- !app_assoc. reflexivity.
    + rewrite IH; fields; try assumption; try lia; try (rewrite len_app; lia).
      f_equal. unfold file_absorb. norm.
      rewrite Hsplit, feed_app, (feed_small ps [] acc chunk) by lia.
      reflexivity.
Qed.

Lemma torrentPieceLoop_absorb (fuel : nat) :
  forall (mh : MultiHasher) (rest : list byte),
    0 < pieceSize mh < 2 ^ 63 ->
    torrentPieceSHA1 mh = torrentPieceBuffer mh ->
    len (torrentPieceBuffer mh) < pieceSize mh ->
    (length rest <= fuel)%nat ->
    torrentPieceLoop fuel mh rest = Done (torrent_absorb mh rest).
Proof.
  induction fuel as [|fuel IH]; intros mh rest Hps Hhash Hroom Hfuel.
  - destruct rest; [|cbn in Hfuel; lia].
    destruct mh. unfold torrent_absorb. rewrite feed_nil. fields. norm. subst.
    cbn [map concat]. now rewrite app_nil_r.
  - destruct rest as [|b r].
    { destruct mh. unfold torrent_absorb. rewrite feed_nil. fields. norm. subst.
      cbn [map concat]. now rewrite app_nil_r. }
    cbn [torrentPieceLoop].
    set (rest := b :: r) in *.
    assert (Hrest : 0 < len rest) by (unfold len, rest; cbn [length]; lia).
    pose proof (len_nonneg (torrentPieceBuffer mh)) as Hacc.
    assert (Hsp : sub64 (pieceSize mh) (len (torrentPieceBuffer mh))
                  = pieceSize mh - len (torrentPieceBuffer mh)).
    { apply wrap64_small. unfold is_int64. lia. }
    rewrite Hsp.
    set (k := if len rest >? pieceSize mh - len (torrentPieceBuffer mh)
              then pieceSize mh - len (torrentPieceBuffer mh) else len rest).
    assert (Hk : 0 < k <= len rest /\ k <= pieceSize mh - len (torrentPieceBuffer mh)).
    { subst k. destruct (len rest >? _) eqn:E;
        [apply Z.gtb_lt in E | rewrite Z.gtb_ltb in E; apply Z.ltb_ge in E]; lia. }
    assert (Hneg : (k <? 0) = false) by (apply Z.ltb_ge; lia).
    rewrite Hneg.
    set (chunk := firstn (Z.to_nat k) rest).
    set (tail := skipn (Z.to_nat k) rest).
    assert (Hsplit : rest = chunk ++ tail) by (symmetry; apply firstn_skipn).
    assert (Hchunk : len chunk = k) by (apply len_firstn; lia).
    assert (Hne : chunk <> []).
    { intros E. rewrite E in Hchunk. cbn in Hchunk. lia. }
    assert (Htail : (length tail <= fuel)%nat).
    { subst tail. rewrite length_skipn. unfold rest in *. cbn [length] in *.
      unfold len in Hk. cbn [length] in Hk. lia. }
    clearbody chunk tail k rest.
    destruct mh as [ps buf ts tp fs acc fb cl cc rp rs].
    fields. norm. subst ts. rewrite len_app, Hchunk.
    destruct (Z.eqb_spec (len buf + k) ps) as [Hfull | Hpart].
    + rewrite IH; fields; try assumption; try reflexivity; try (cbn; lia).
      f_equal. unfold torrent_absorb. norm.
      rewrite Hsplit, feed_app, (feed_exact ps [] buf chunk) by (assumption || lia).
      cbn [app]. rewrite (feed_emitted ps [buf ++ chunk] [] tail). cbn [fst snd].
      cbn [app map concat]. rewrite <- !app_assoc. reflexivity.
    + rewrite IH; fields; try assumption; try reflexivity; try lia;
        try (rewrite len_app; lia).
      f_equal. unfold torrent_absorb. norm.
      rewrite Hsplit, feed_app, (feed_small ps [] buf chunk) by lia.
      reflexivity.
Qed.

Lemma Write_absorb (mh : MultiHasher) (data : list byte) :
  wf mh -> Write mh data = Done (absorb mh data).
Proof.
  intros [Hps Hcnt Hroom Hhash Htroom Hcc].
  unfold Write, absorb.
  rewrite filePieceLoop_absorb; fields; try assumption; [|lia].
  cbn [bind].
  rewrite torrentPieceLoop_absorb; fields; try assumption; [reflexivity|lia].
Qed.

(** The iteration budget is immaterial: a loop that ends within its budget
    ends in the same way within any larger one. *)
Lemma filePieceLoop_more_fuel (fuel : nat) :
  forall (mh : MultiHasher) (rest : list byte) (r : outcome MultiHasher),
    filePieceLoop fuel mh rest = r -> r <> OutOfFuel ->
    forall fuel', (fuel <= fuel')%nat -> filePieceLoop fuel' mh rest = r.
Proof.
  induction fuel as [|fuel IH]; intros mh rest r Hrun Hr fuel' Hle.
  - destruct rest; [destruct fuel'; exact Hrun|].
    cbn in Hrun. congruence.
  - destruct rest as [|b rest]; [destruct fuel'; exact Hrun|].
    destruct fuel' as [|fuel']; [lia|].
    cbn [filePieceLoop] in *.
    match type of Hrun with
    | (if ?c then _ else _) = _ => destruct c
    end; [exact Hrun|].
    eapply IH; [exact Hrun | exact Hr | lia].
Qed.

Lemma torrentPieceLoop_more_fuel (fuel : nat) :
  forall (mh : MultiHasher) (rest : list byte) (r : outcome MultiHasher),
    torrentPieceLoop fuel mh rest = r -> r <> OutOfFuel ->
    forall fuel', (fuel <= fuel')%nat -> torrentPieceLoop fuel' mh rest = r.
Proof.
  induction fuel as [|fuel IH]; intros mh rest r Hrun Hr fuel' Hle.
  - destruct rest; [destruct fuel'; exact Hrun|].
    cbn in Hrun. congruence.
  - destruct rest as [|b rest]; [destruct fuel'; exact Hrun|].
    destruct fuel' as [|fuel']; [lia|].
    cbn [torrentPieceLoop] in *.
    match type of Hrun with
    | (if ?c then _ else _) = _ => destruct c
    end; [exact Hrun|].
    eapply IH; [exact Hrun | exact Hr | lia].
Qed.

Lemma absorb_nil (mh : MultiHasher) : wf mh -> absorb mh [] = mh.
Proof.
  intros [Hps Hcnt Hroom Hhash Htroom Hcc].
  destruct mh as [ps buf ts tp fs acc fb cl cc rp rs].
  fields. unfold absorb, torrent_absorb, file_absorb. norm. rewrite !feed_nil.
  cbn [fst snd]. subst. cbn [map concat]. rewrite !app_nil_r.
  change (len []) with 0. unfold add64. rewrite Z.add_0_r, wrap64_small by assumption.
  reflexivity.
Qed.

Lemma feed_app_fst n acc a b :
  fst (feed n ([], acc) (a ++ b)) =
  fst (feed n ([], acc) a) ++ fst (feed n ([], snd (feed n ([], acc) a)) b).
Proof.
  rewrite feed_app.
  rewrite (surjective_pairing (feed n ([], acc) a)) at 1.
  now rewrite feed_emitted.
Qed.

Lemma feed_app_snd n acc a b :
  snd (feed n ([], acc) (a ++ b)) =
  snd (feed n ([], snd (feed n ([], acc) a)) b).
Proof.
  rewrite feed_app.
  rewrite (surjective_pairing (feed n ([], acc) a)) at 1.
  now rewrite feed_emitted.
Qed.

Lemma absorb_app (mh : MultiHasher) (a b : list byte) :
  absorb mh (a ++ b) = absorb (absorb mh a) b.
Proof.
  destruct mh as [ps buf ts tp fs acc fb cl cc rp rs].
  unfold absorb, torrent_absorb, file_absorb. norm.
  rewrite !feed_app_fst, !feed_app_snd.
  rewrite !map_app, concat_app, !app_assoc, add64_add64, len_app.
  reflexivity.
Qed.

Lemma wf_absorb (mh : MultiHasher) (data : list byte) :
  wf mh -> wf (absorb mh data).
Proof.
  intros [Hps Hcnt Hroom Hhash Htroom Hcc].
  destruct mh as [ps buf ts tp fs acc fb cl cc rp rs].
  fields. unfold absorb, torrent_absorb, file_absorb. norm.
  constructor; fields; try assumption; try reflexivity.
  - subst fb.
    destruct (feed_invariant ps [] acc data) as (_ & H & _);
      [lia | constructor | assumption | exact H].
  - destruct (feed_invariant ps [] buf data) as (_ & H & _);
      [lia | constructor | assumption | exact H].
  - apply wrap64_is_int64.
Qed.

Lemma wf_NewMultiHasher (ps : Z) : 0 < ps < 2 ^ 63 -> wf (NewMultiHasher ps).
Proof.
  intros H. constructor; cbn; try reflexivity; try lia.
  unfold is_int64. lia.
Qed.

Lemma wf_StartFile (mh : MultiHasher) (p : string) : wf mh -> wf (StartFile mh p).
Proof.
  intros [Hps Hcnt Hroom Hhash Htroom Hcc].
  unfold StartFile. constructor; fields; try assumption; try reflexivity; try lia.
  unfold is_int64. lia.
Qed.

Lemma wf_EndFile (mh : MultiHasher) : wf mh -> wf (fst (EndFile mh)).
Proof.
  intros [Hps Hcnt Hroom Hhash Htroom Hcc].
  unfold EndFile. destruct (filePieceBuffer mh >? 0); constructor; fields; assumption.
Qed.

Lemma wf_Finalize (mh : MultiHasher) : wf mh -> wf (Finalize mh).
Proof.
  intros [Hps Hcnt Hroom Hhash Htroom Hcc].
  unfold Finalize. destruct (len (torrentPieceBuffer mh) >? 0);
    constructor; fields; assumption.
Qed.

Lemma readLoop_absorb (reads : list (list byte)) :
  forall mh, wf mh ->
    readLoop mh reads = Done (absorb mh (concat reads)).
Proof.
  induction reads as [|buf reads IH]; intros mh Hwf.
  - cbn [readLoop concat]. now rewrite absorb_nil.
  - cbn [readLoop concat]. rewrite absorb_app.
    destruct (len buf >? 0) eqn:E.
    + rewrite Write_absorb by exact Hwf. cbn [bind].
      apply IH. now apply wf_absorb.
    + assert (buf = []) as ->.
      { destruct buf; [reflexivity|]. unfold len in E. cbn [length] in E.
        rewrite Z.gtb_ltb in E. apply Z.ltb_ge in E. lia. }
      cbn [bind]. rewrite (absorb_nil mh Hwf). now apply IH.
Qed.

Lemma writeAll_absorb (chunks : list (list byte)) :
  forall mh, wf mh ->
    writeAll mh chunks = Done (absorb mh (concat chunks)).
Proof.
  induction chunks as [|c chunks IH]; intros mh Hwf.
  - cbn [writeAll concat]. now rewrite absorb_nil.
  - cbn [writeAll concat]. rewrite absorb_app, Write_absorb by exact Hwf.
    cbn [bind]. apply IH. now apply wf_absorb.
Qed.

Lemma last_piece_pos (r : list byte) :
  (if len r >? 0 then [r] else []) = last_piece r.
Proof.
  destruct r as [|b r]; [reflexivity|].
  unfold len. cbn [length last_piece].
  destruct (Z.of_nat (S (length r)) >? 0) eqn:E; [reflexivity|].
  rewrite Z.gtb_ltb in E. apply Z.ltb_ge in E. lia.
Qed.

Lemma EndFile_absorb (mh : MultiHasher) (fi : FileReads) :
  let mh1 := absorb (StartFile mh (fst fi)) (file_bytes fi) in
  snd (EndFile mh1) = result_of (pieceSize mh) fi /\
  results (fst (EndFile mh1)) = results mh ++ [result_of (pieceSize mh) fi] /\
  pieceSize (fst (EndFile mh1)) = pieceSize mh /\
  torrentPieceBuffer (fst (EndFile mh1))
    = snd (feed (pieceSize mh) ([], torrentPieceBuffer mh) (file_bytes fi)) /\
  torrentPieces (fst (EndFile mh1))
    = torrentPieces mh
      ++ concat (map sha1 (fst (feed (pieceSize mh) ([], torrentPieceBuffer mh)
                                  (file_bytes fi)))).
Proof.
  destruct mh as [ps buf ts tp fs acc fb cl cc rp rs].
  destruct fi as [p reads].
  unfold result_of, pieces_of. set (d := file_bytes (p, reads)).
  cbn [fst]. unfold EndFile, absorb, torrent_absorb, file_absorb, StartFile.
  norm. cbn [app].
  assert (Hres :
    {| RelPath := p; Size := add64 0 (len d);
       FileSHA256 := EncodeToString (sha256 d);
       PieceHashes :=
         map digest256 (fst (feed ps ([], []) d))
         ++ (if len (snd (feed ps ([], []) d)) >? 0
             then [EncodeToString (sha256 (snd (feed ps ([], []) d)))] else []);
       Err := None |}
    = {| RelPath := p; Size := wrap64 (len d); FileSHA256 := digest256 d;
         PieceHashes :=
           map digest256 (fst (feed ps ([], []) d)
                          ++ last_piece (snd (feed ps ([], []) d)));
         Err := None |}).
  { rewrite map_app, <- last_piece_pos.
    destruct (len (snd (feed ps ([], []) d)) >? 0); reflexivity. }
  destruct (len (snd (feed ps ([], []) d)) >? 0); norm;
    cbn [app] in Hres; rewrite ?app_nil_r in *; rewrite Hres; auto.
Qed.

Lemma hashFiles_run (files : list FileReads) :
  forall mh, wf mh ->
    exists mh',
      hashFiles mh files = Done mh' /\ wf mh' /\
      pieceSize mh' = pieceSize mh /\
      results mh' = results mh ++ map (result_of (pieceSize mh)) files /\
      torrentPieceBuffer mh'
        = snd (feed (pieceSize mh) ([], torrentPieceBuffer mh) (run_bytes files)) /\
      torrentPieces mh'
        = torrentPieces mh
          ++ concat (map sha1 (fst (feed (pieceSize mh) ([], torrentPieceBuffer mh)
                                      (run_bytes files)))).
Proof.
  induction files as [|fi files IH]; intros mh Hwf.
  - exists mh. cbn [hashFiles map run_bytes concat]. rewrite feed_nil.
    cbn [fst snd map concat]. rewrite !app_nil_r.
    split; [reflexivity|]. split; [exact Hwf|]. auto.
  - cbn [hashFiles].
    rewrite readLoop_absorb by (now apply wf_StartFile).
    cbn [bind]. fold (file_bytes fi).
    destruct (EndFile_absorb mh fi) as (_ & Hres & Hps & Hbuf & Hpieces).
    set (mh2 := fst (EndFile (absorb (StartFile mh (fst fi)) (file_bytes fi)))) in *.
    assert (Hwf2 : wf mh2).
    { apply wf_EndFile, wf_absorb, wf_StartFile, Hwf. }
    destruct (IH mh2 Hwf2) as (mh' & Hrun & Hwf' & Hps' & Hres' & Hbuf' & Hpieces').
    exists mh'. split; [exact Hrun|]. split; [exact Hwf'|].
    rewrite Hps in *.
    split; [congruence|].
    unfold run_bytes in *. cbn [map concat].
    rewrite feed_app_fst, feed_app_snd.
    rewrite Hres', Hres, Hbuf', Hpieces', Hpieces, !Hbuf.
    rewrite map_app, concat_app, <- !app_assoc. cbn [app]. auto.
Qed.

Lemma hashAll_run (ps : Z) (files : list FileReads) :
  0 < ps < 2 ^ 63 ->
  exists mh',
    hashAll ps files = Done mh' /\
    GetResults mh' = map (result_of ps) files /\
    GetTorrentPieces mh' = concat (map sha1 (pieces_of ps (run_bytes files))).
Proof.
  intros Hps.
  destruct (hashFiles_run files (NewMultiHasher ps) (wf_NewMultiHasher ps Hps))
    as (mh & Hrun & Hwf & Hps' & Hres & Hbuf & Hpieces).
  cbn [NewMultiHasher pieceSize results torrentPieceBuffer torrentPieces app] in *.
  exists (Finalize mh). unfold hashAll. rewrite Hrun. cbn [bind].
  split; [reflexivity|].
  unfold GetResults, GetTorrentPieces, Finalize, pieces_of.
  destruct Hwf as [_ _ _ Hhash _ _].
  rewrite map_app, concat_app, <- last_piece_pos, <- Hbuf.
  destruct (len (torrentPieceBuffer mh) >? 0); fields.
  - rewrite Hhash, Hpieces, Hres. cbn [map concat]. rewrite app_nil_r. auto.
  - rewrite Hpieces, Hres. cbn [map concat]. rewrite app_nil_r. auto.
Qed.



Lemma pieces_of_short (n : Z) (d : list byte) :
  0 < len d < n -> pieces_of n d = [d].
Proof.
  intros H. unfold pieces_of.
  rewrite feed_small by (change (len []) with 0; lia).
  cbn [fst snd app]. destruct d; [cbn in H; lia | reflexivity].
Qed.

Lemma pieces_of_step (n : Z) (a b : list byte) :
  0 < n -> len a = n -> pieces_of n (a ++ b) = a :: pieces_of n b.
Proof.
  intros Hn Ha. unfold pieces_of.
  assert (Hne : a <> []) by (intros ->; cbn in Ha; lia).
  rewrite feed_app, (feed_exact n [] [] a) by (assumption || (cbn; lia)).
  cbn [app]. rewrite (feed_emitted n [a] [] b). reflexivity.
Qed.

Lemma pieces_of_two (n : Z) (a b : list byte) :
  len a = n -> 0 < len b < n -> pieces_of n (a ++ b) = [a; b].
Proof.
  intros Ha Hb. pose proof (len_nonneg b).
  rewrite pieces_of_step by lia. now rewrite pieces_of_short.
Qed.

Lemma Forall2_map_right {A B : Type} (R : A -> B -> Prop) (f : A -> B)
    (l : list A) :
  (forall x, R x (f x)) -> Forall2 R l (map f l).
Proof. intros H. induction l; cbn [map]; constructor; auto. Qed.

Lemma pieceSize_absorb (mh : MultiHasher) (data : list byte) :
  pieceSize (absorb mh data) = pieceSize mh.
Proof. reflexivity. Qed.


(** *** The model on small inputs *)

Example hashAll_sample_results :
  match hashAll 4 sample_files with
  | Done mh =>
      map (fun r => (RelPath r, Size r, List.length (PieceHashes r))) (GetResults mh)
      = [("a"%string, 6, 2%nat); ("b"%string, 3, 1%nat)]
  | _ => False
  end.
Proof.
  destruct (hashAll_run 4 sample_files ltac:(lia)) as (mh & -> & -> & _).
  reflexivity.
Qed.

Example Write_zero_piece_size :
  Write (NewMultiHasher 0) [x01] = OutOfFuel.
Proof. reflexivity. Qed.

Example Write_negative_piece_size :
  Write (NewMultiHasher (-1)) [x01] = Panic.
Proof. reflexivity. Qed.

(** *** The claims about the hasher *)

(** C2. Piece accounting: in a run over any files, read in any chunks, the
    piece digests recorded for a file are the digests of consecutive byte
    ranges of that file whose lengths add up to the file's size, each range
    being [pieceSize] bytes long except possibly the last, which is not
    empty and not longer; the cross-file stream is the same with the
    concatenation of all files in place of one file. *)
Theorem piece_accounting_holds (ps : Z) (files : list FileReads) :
  0 < ps < 2 ^ 63 ->
  exists mh',
    hashAll ps files = Done mh' /\
    Forall2
      (fun fi r =>
         exists pieces : list (list byte),
           concat pieces = file_bytes fi /\
           PieceHashes r = map digest256 pieces /\
           piece_accounting ps (len (file_bytes fi)) (map len pieces))
      files (GetResults mh') /\
    exists pieces : list (list byte),
      concat pieces = run_bytes files /\
      GetTorrentPieces mh' = concat (map sha1 pieces) /\
      piece_accounting ps (len (run_bytes files)) (map len pieces).
Proof.
  intros Hps.
  destruct (hashAll_run ps files Hps) as (mh' & Hrun & Hres & Htor).
  exists mh'. split; [exact Hrun|]. split.
  - rewrite Hres. apply Forall2_map_right. intros fi.
    exists (pieces_of ps (file_bytes fi)).
    split; [apply pieces_of_concat; lia|].
    split; [reflexivity|]. apply pieces_of_accounting. lia.
  - exists (pieces_of ps (run_bytes files)).
    split; [apply pieces_of_concat; lia|].
    split; [exact Htor|]. apply pieces_of_accounting. lia.
Qed.

(** C3. Chunk independence: from any state between two calls, writing the
    chunks of a partition one by one leaves the hasher in the same state as
    writing their concatenation at once; a zero-length chunk changes
    nothing; and [Write] of [a ++ b] is [Write] of [a] followed by [Write]
    of [b]. *)
Theorem Write_chunking (mh : MultiHasher) (chunks : list (list byte)) :
  wf mh ->
  writeAll mh chunks = Write mh (concat chunks) /\
  Write mh [] = Done mh /\
  (forall a b : list byte,
      Write mh (a ++ b) = (mh' <- Write mh a ;; Write mh' b)).
Proof.
  intros Hwf. split; [|split].
  - rewrite writeAll_absorb, Write_absorb by exact Hwf. reflexivity.
  - rewrite Write_absorb by exact Hwf. now rewrite absorb_nil.
  - intros a b. rewrite !Write_absorb by exact Hwf. cbn [bind].
    rewrite Write_absorb by (now apply wf_absorb).
    now rewrite absorb_app.
Qed.

(** C4. After [Finalize] the cross-file stream is the concatenation of
    exactly [ceil (total_bytes / pieceSize)] digests, one per piece of the
    concatenated input; it is empty when no byte was read. *)
Theorem torrent_piece_count (ps : Z) (files : list FileReads) :
  0 < ps < 2 ^ 63 ->
  exists mh',
    hashAll ps files = Done mh' /\
    let digests := map sha1 (pieces_of ps (run_bytes files)) in
    GetTorrentPieces mh' = concat digests /\
    Z.of_nat (length digests) = ceil_div (len (run_bytes files)) ps /\
    (len (run_bytes files) = 0 -> GetTorrentPieces mh' = []).
Proof.
  intros Hps.
  destruct (hashAll_run ps files Hps) as (mh' & Hrun & _ & Htor).
  exists mh'. split; [exact Hrun|]. cbv zeta.
  split; [exact Htor|]. split.
  - rewrite length_map. apply pieces_of_count. lia.
  - intros Hz. rewrite Htor.
    destruct (run_bytes files); [reflexivity | cbn in Hz; lia].
Qed.

(** C6. [StartFile] records the path and resets the whole-file digest, the
    per-file piece digest, the per-file partial count, the per-file piece
    list and the per-file byte count; the piece length, the cross-file
    digest, buffer and emitted stream, and the collected results keep their
    values. *)
Theorem StartFile_frame (mh : MultiHasher) (relPath : string) :
  let mh' := StartFile mh relPath in
  (currentFileRelPath mh' = relPath /\
   fileSHA256 mh' = [] /\
   filePieceSHA256 mh' = [] /\
   filePieceBuffer mh' = 0 /\
   currentFilePieceList mh' = [] /\
   currentFileByteCount mh' = 0) /\
  (pieceSize mh' = pieceSize mh /\
   torrentPieceSHA1 mh' = torrentPieceSHA1 mh /\
   torrentPieceBuffer mh' = torrentPieceBuffer mh /\
   torrentPieces mh' = torrentPieces mh /\
   results mh' = results mh).
Proof. cbv zeta. unfold StartFile. fields. repeat split. Qed.

(** C7. Two files of 200 KiB and 100 KiB with a piece length of 256 KiB:
    each file gets one piece digest, over the whole file; the cross-file
    stream holds two digests, the first over the first file followed by the
    first 56 KiB of the second, the second over the remaining 44 KiB. *)
Theorem two_files_scenario (p1 p2 : string) (reads1 reads2 : list (list byte)) :
  len (concat reads1) = 200 * 1024 ->
  len (concat reads2) = 100 * 1024 ->
  exists mh',
    hashAll (256 * 1024) [(p1, reads1); (p2, reads2)] = Done mh' /\
    map PieceHashes (GetResults mh')
      = [[digest256 (concat reads1)]; [digest256 (concat reads2)]] /\
    GetTorrentPieces mh'
      = sha1 (concat reads1 ++ firstn (Z.to_nat (56 * 1024)) (concat reads2))
        ++ sha1 (skipn (Z.to_nat (56 * 1024)) (concat reads2)) /\
    len (firstn (Z.to_nat (56 * 1024)) (concat reads2)) = 56 * 1024 /\
    len (skipn (Z.to_nat (56 * 1024)) (concat reads2)) = 44 * 1024.
Proof.
  intros H1 H2.
  destruct (hashAll_run (256 * 1024) [(p1, reads1); (p2, reads2)] ltac:(lia))
    as (mh' & Hrun & Hres & Htor).
  set (f1 := concat reads1) in *. set (f2 := concat reads2) in *.
  assert (Hhead : len (firstn (Z.to_nat (56 * 1024)) f2) = 56 * 1024)
    by (apply len_firstn; lia).
  assert (Htail : len (skipn (Z.to_nat (56 * 1024)) f2) = 44 * 1024).
  { pose proof (firstn_skipn (Z.to_nat (56 * 1024)) f2) as Hs.
    apply (f_equal len) in Hs. rewrite len_app in Hs. lia. }
  exists mh'. split; [exact Hrun|]. split; [|split; [|split; assumption]].
  - rewrite Hres. cbn [map]. unfold result_of, file_bytes.
    cbn [PieceHashes fst snd]. fold f1 f2.
    rewrite !pieces_of_short by lia. reflexivity.
  - rewrite Htor. unfold run_bytes, file_bytes. cbn [map concat snd].
    fold f1 f2. rewrite app_nil_r.
    rewrite <- (firstn_skipn (Z.to_nat (56 * 1024)) f2) at 1.
    rewrite app_assoc, pieces_of_two by (rewrite ?len_app; lia).
    cbn [map concat]. now rewrite app_nil_r.
Qed.


(** C10. [EndFile] appends the value it returns to the results, so
    [GetResults] lists the files in the order they were processed; the
    [Size] of each result is the number of bytes passed to [Write] for that
    file (when that number fits an [int64]). *)
Theorem result_size_and_order (mh : MultiHasher) (files : list FileReads) :
  wf mh ->
  Forall (fun fi => sumZ (map len (snd fi)) < 2 ^ 63) files ->
  (forall m : MultiHasher,
      GetResults (fst (EndFile m)) = GetResults m ++ [snd (EndFile m)] /\
      Size (snd (EndFile m)) = currentFileByteCount m) /\
  exists mh',
    hashFiles mh files = Done mh' /\
    map (fun r => (RelPath r, Size r)) (GetResults mh')
    = map (fun r => (RelPath r, Size r)) (GetResults mh)
      ++ map (fun fi => (fst fi, sumZ (map len (snd fi)))) files.
Proof.
  intros Hwf Hsizes. split.
  - intros m. unfold EndFile, GetResults.
    destruct (filePieceBuffer m >? 0); split; reflexivity.
  - destruct (hashFiles_run files mh Hwf) as (mh' & Hrun & _ & _ & Hres & _).
    exists mh'. split; [exact Hrun|].
    unfold GetResults. rewrite Hres, map_app, map_map. f_equal.
    apply map_ext_in. intros fi Hin.
    rewrite Forall_forall in Hsizes. specialize (Hsizes fi Hin).
    unfold result_of, file_bytes. cbn [RelPath Size].
    rewrite sumZ_len_concat in *. f_equal.
    apply wrap64_small. unfold is_int64.
    pose proof (len_nonneg (concat (snd fi))). lia.
Qed.

(** *** Further properties of the hasher *)

Lemma hex_bytes_byte (v : byte) (rest : string) :
  hex_bytes (String (hexchar (N.shiftr (Byte.to_N v) 4))
               (String (hexchar (N.land (Byte.to_N v) 15)) rest))
  = Some v :: hex_bytes rest.
Proof.
  cbn [hex_bytes]. f_equal.
  destruct v; vm_compute; reflexivity.
Qed.

Lemma hex_bytes_EncodeToString (d : list byte) :
  hex_bytes (EncodeToString d) = map Some d.
Proof.
  induction d as [|v d IH]; [reflexivity|].
  cbn [EncodeToString map]. now rewrite hex_bytes_byte, IH.
Qed.

(** [hex.EncodeToString] writes two characters per byte and loses nothing:
    different byte strings get different texts. *)
Theorem EncodeToString_faithful (d1 d2 : list byte) :
  String.length (EncodeToString d1) = (2 * length d1)%nat /\
  (EncodeToString d1 = EncodeToString d2 -> d1 = d2).
Proof.
  split.
  - induction d1 as [|v d IH]; [reflexivity|].
    cbn [EncodeToString String.length length]. rewrite IH. lia.
  - intros H. apply (f_equal hex_bytes) in H.
    rewrite !hex_bytes_EncodeToString in H.
    revert d2 H. induction d1 as [|v d IH]; intros [|w d2] H;
      try discriminate; [reflexivity|].
    cbn [map] in H. injection H as -> H. f_equal. now apply IH.
Qed.

Lemma Forall2_map_right_in {A B : Type} (R : A -> B -> Prop) (f : A -> B)
    (l : list A) :
  (forall x, In x l -> R x (f x)) -> Forall2 R l (map f l).
Proof.
  induction l as [|a l IH]; intros H; cbn [map]; constructor.
  - apply H. now left.
  - apply IH. intros x Hx. apply H. now right.
Qed.

(** Each file's result carries its path, the digest of its whole content as
    read, and one piece digest per [pieceSize] bytes, rounded up. *)
Theorem file_result_contents (ps : Z) (files : list FileReads) :
  0 < ps < 2 ^ 63 ->
  exists mh',
    hashAll ps files = Done mh' /\
    Forall2
      (fun fi r =>
         RelPath r = fst fi /\
         FileSHA256 r = EncodeToString (sha256 (file_bytes fi)) /\
         Z.of_nat (length (PieceHashes r)) = ceil_div (len (file_bytes fi)) ps /\
         Err r = None)
      files (GetResults mh').
Proof.
  intros Hps.
  destruct (hashAll_run ps files Hps) as (mh' & Hrun & Hres & _).
  exists mh'. split; [exact Hrun|].
  rewrite Hres. apply Forall2_map_right. intros fi.
  unfold result_of. cbn [RelPath FileSHA256 PieceHashes Err].
  repeat split. rewrite length_map. apply pieces_of_count. lia.
Qed.

(** The result recorded for a file in a run is the result of hashing that
    file alone: it does not depend on the files before or after it. *)
Theorem file_result_independent (ps : Z) (files : list FileReads) :
  0 < ps < 2 ^ 63 ->
  exists mh',
    hashAll ps files = Done mh' /\
    Forall2
      (fun fi r => exists mh1, hashAll ps [fi] = Done mh1 /\ GetResults mh1 = [r])
      files (GetResults mh').
Proof.
  intros Hps.
  destruct (hashAll_run ps files Hps) as (mh' & Hrun & Hres & _).
  exists mh'. split; [exact Hrun|].
  rewrite Hres. apply Forall2_map_right. intros fi.
  destruct (hashAll_run ps [fi] Hps) as (mh1 & Hrun1 & Hres1 & _).
  exists mh1. split; [exact Hrun1|]. exact Hres1.
Qed.

(** The cross-file stream depends on the concatenated bytes only, not on how
    they are divided into files or reads. *)
Theorem torrent_stream_of_concatenation (ps : Z) (files files' : list FileReads) :
  0 < ps < 2 ^ 63 ->
  run_bytes files = run_bytes files' ->
  exists mh1 mh2,
    hashAll ps files = Done mh1 /\
    hashAll ps files' = Done mh2 /\
    GetTorrentPieces mh1 = GetTorrentPieces mh2.
Proof.
  intros Hps Hbytes.
  destruct (hashAll_run ps files Hps) as (mh1 & Hrun1 & _ & Htor1).
  destruct (hashAll_run ps files' Hps) as (mh2 & Hrun2 & _ & Htor2).
  exists mh1, mh2. split; [exact Hrun1|]. split; [exact Hrun2|].
  now rewrite Htor1, Htor2, Hbytes.
Qed.

(** For a single file the per-file pieces and the cross-file pieces are
    digests of the same byte ranges. *)
Theorem single_file_same_pieces (ps : Z) (fi : FileReads) :
  0 < ps < 2 ^ 63 ->
  exists mh' (pieces : list (list byte)),
    hashAll ps [fi] = Done mh' /\
    concat pieces = file_bytes fi /\
    map PieceHashes (GetResults mh') = [map digest256 pieces] /\
    GetTorrentPieces mh' = concat (map sha1 pieces).
Proof.
  intros Hps.
  destruct (hashAll_run ps [fi] Hps) as (mh' & Hrun & Hres & Htor).
  exists mh', (pieces_of ps (file_bytes fi)).
  split; [exact Hrun|]. split; [apply pieces_of_concat; lia|].
  split; [now rewrite Hres|].
  rewrite Htor. unfold run_bytes. cbn [map concat]. now rewrite app_nil_r.
Qed.

Lemma concat_fixed_length (n : Z) (l : list (list byte)) :
  Forall (fun d => len d = n) l ->
  len (concat l) = n * Z.of_nat (length l).
Proof.
  induction 1 as [|d l Hd _ IH]; [cbn; lia|].
  cbn [concat length]. rewrite len_app, IH, Hd. lia.
Qed.

(** With 20-byte digests the [pieces] string of the torrent is
    [20 * ceil (total / pieceSize)] bytes long. *)
Theorem torrent_pieces_length (ps : Z) (files : list FileReads) :
  (forall d, len (sha1 d) = 20) ->
  0 < ps < 2 ^ 63 ->
  exists mh',
    hashAll ps files = Done mh' /\
    len (GetTorrentPieces mh') = 20 * ceil_div (len (run_bytes files)) ps.
Proof.
  intros Hsize Hps.
  destruct (hashAll_run ps files Hps) as (mh' & Hrun & _ & Htor).
  exists mh'. split; [exact Hrun|].
  rewrite Htor, (concat_fixed_length 20).
  - rewrite length_map, pieces_of_count by lia. reflexivity.
  - apply Forall_map, Forall_forall. intros d _. apply Hsize.
Qed.

(** No call takes back what was emitted: after any call sequence the
    cross-file stream and the result list extend the ones before. *)
Theorem emitted_data_kept (mh : MultiHasher) (cs : list call) :
  wf mh ->
  exists mh' (pieces : list byte) (rs : list FileHashResult),
    exec mh cs = Done mh' /\
    GetTorrentPieces mh' = GetTorrentPieces mh ++ pieces /\
    GetResults mh' = GetResults mh ++ rs.
Proof.
  revert mh. induction cs as [|c cs IH]; intros mh Hwf.
  - exists mh, [], []. now rewrite !app_nil_r.
  - cbn [exec].
    assert (Hstep : exists mh1 t r,
      exec1 mh c = Done mh1 /\ wf mh1 /\
      GetTorrentPieces mh1 = GetTorrentPieces mh ++ t /\
      GetResults mh1 = GetResults mh ++ r).
    { unfold GetTorrentPieces, GetResults.
      destruct c as [relPath | data | | ]; cbn [exec1].
      - exists (StartFile mh relPath), [], [].
        rewrite !app_nil_r. auto using wf_StartFile.
      - rewrite Write_absorb by exact Hwf.
        eexists (absorb mh data), _, [].
        split; [reflexivity|]. split; [now apply wf_absorb|].
        split; [reflexivity|]. now rewrite app_nil_r.
      - exists (fst (EndFile mh)), [], [snd (EndFile mh)].
        split; [reflexivity|]. split; [now apply wf_EndFile|].
        unfold EndFile. rewrite app_nil_r.
        destruct (filePieceBuffer mh >? 0); split; reflexivity.
      - exists (Finalize mh). unfold Finalize.
        destruct (len (torrentPieceBuffer mh) >? 0) eqn:E.
        + eexists _, []. split; [reflexivity|].
          split; [pose proof (wf_Finalize mh Hwf) as H;
                  unfold Finalize in H; now rewrite E in H|].
          split; [reflexivity|]. now rewrite app_nil_r.
        + exists [], []. rewrite !app_nil_r. auto. }
    destruct Hstep as (mh1 & t & r & -> & Hwf1 & Ht & Hr). cbn [bind].
    destruct (IH mh1 Hwf1) as (mh' & t' & r' & Hrun & Ht' & Hr').
    exists mh', (t ++ t'), (r ++ r'). split; [exact Hrun|].
    rewrite Ht', Hr', Ht, Hr, <- !app_assoc. auto.
Qed.

(** A file without bytes gets a result of size 0 with no piece digest and
    the digest of the empty input, and leaves the cross-file state as it
    was. *)
Theorem empty_file_result (mh : MultiHasher) (p : string) (reads : list (list byte)) :
  wf mh ->
  concat reads = [] ->
  exists mh',
    hashFiles mh [(p, reads)] = Done mh' /\
    GetResults mh'
      = GetResults mh
        ++ [{| RelPath := p; Size := 0;
               FileSHA256 := EncodeToString (sha256 []);
               PieceHashes := []; Err := None |}] /\
    GetTorrentPieces mh' = GetTorrentPieces mh /\
    torrentPieceBuffer mh' = torrentPieceBuffer mh.
Proof.
  intros Hwf Hempty.
  destruct (hashFiles_run [(p, reads)] mh Hwf)
    as (mh' & Hrun & _ & _ & Hres & Hbuf & Hpieces).
  exists mh'. split; [exact Hrun|].
  unfold GetResults, GetTorrentPieces.
  unfold run_bytes, file_bytes in *. cbn [map concat snd] in *.
  rewrite Hempty in *. cbn [app] in *. rewrite feed_nil in *.
  cbn [fst snd map concat] in *. rewrite app_nil_r in Hpieces.
  split; [|split; assumption].
  rewrite Hres. unfold result_of, file_bytes, pieces_of, digest256.
  cbn [fst snd]. rewrite Hempty, feed_nil. reflexivity.
Qed.

(** A piece length of zero: the first loop of [Write] never ends on
    non-empty data, whatever the number of iterations allowed. *)
Theorem Write_zero_pieceSize (fuel : nat) :
  forall (mh : MultiHasher) (data : list byte),
    pieceSize mh = 0 -> filePieceBuffer mh = 0 -> data <> [] ->
    filePieceLoop fuel mh data = OutOfFuel.
Proof.
  induction fuel as [|fuel IH]; intros mh data Hps Hbuf Hdata.
  - destruct data; [contradiction | reflexivity].
  - destruct data as [|b data]; [contradiction|].
    assert (Hlen : (len (b :: data) >? 0) = true).
    { apply Z.gtb_lt. unfold len. cbn [length]. lia. }
    destruct mh as [ps tb ts tp fs acc buf cl cc rp rs].
    cbn [pieceSize filePieceBuffer] in Hps, Hbuf. subst ps buf.
    cbn [filePieceLoop]. norm.
    change (sub64 0 0) with 0. rewrite Hlen.
    cbn [Z.ltb Z.compare Z.to_nat firstn skipn].
    change (add64 0 0) with 0. cbn [Z.eqb].
    apply IH; [reflexivity | reflexivity | exact Hdata].
Qed.

(** A negative piece length: [Write] of non-empty data to a new hasher
    stops with a slice-bounds panic. *)
Theorem Write_negative_pieceSize (ps : Z) (data : list byte) :
  - 2 ^ 63 <= ps < 0 -> data <> [] ->
  Write (NewMultiHasher ps) data = Panic.
Proof.
  intros Hps Hdata. unfold Write.
  destruct data as [|b data]; [contradiction|].
  unfold NewMultiHasher. cbn [length filePieceLoop]. norm.
  assert (Hsp : sub64 ps 0 = ps).
  { unfold sub64. rewrite Z.sub_0_r. apply wrap64_small. unfold is_int64. lia. }
  rewrite Hsp.
  assert (Hlen : (len (b :: data) >? ps) = true).
  { apply Z.gtb_lt. pose proof (len_nonneg (b :: data)). lia. }
  rewrite Hlen.
  assert (Hneg : (ps <? 0) = true) by (apply Z.ltb_lt; lia).
  rewrite Hneg. reflexivity.
Qed.

Lemma partial_piece_length (n : Z) (data : list byte) :
  0 < n -> len (partial_piece n data) = len data mod n.
Proof.
  intros Hn. unfold partial_piece.
  destruct (feed_invariant n [] [] data Hn) as (H1 & H2 & H3);
    [constructor | cbn; lia |].
  cbn [concat app] in H3.
  set (E := fst (feed n ([], []) data)) in *.
  set (r := snd (feed n ([], []) data)) in *.
  pose proof (len_nonneg r).
  apply Z.mod_unique with (q := Z.of_nat (length E)); [lia|].
  rewrite <- H3, len_app, <- sumZ_len_concat, (sumZ_full n) by exact H1. lia.
Qed.

(** [Finalize] is to be called once: a second call changes nothing when the
    total size is a multiple of the piece length, and otherwise appends the
    digest of the last, short piece once more. *)
Theorem Finalize_twice (ps : Z) (files : list FileReads) :
  0 < ps < 2 ^ 63 ->
  exists mh',
    hashAll ps files = Done mh' /\
    (len (run_bytes files) mod ps = 0 -> Finalize mh' = mh') /\
    (len (run_bytes files) mod ps <> 0 ->
     GetTorrentPieces (Finalize mh')
       = GetTorrentPieces mh' ++ sha1 (partial_piece ps (run_bytes files)) /\
     len (partial_piece ps (run_bytes files)) = len (run_bytes files) mod ps).
Proof.
  intros Hps.
  destruct (hashFiles_run files (NewMultiHasher ps) (wf_NewMultiHasher ps Hps))
    as (mh & Hrun & Hwf & _ & _ & Hbuf & _).
  cbn [NewMultiHasher pieceSize torrentPieceBuffer] in Hbuf.
  fold (partial_piece ps (run_bytes files)) in Hbuf.
  pose proof (partial_piece_length ps (run_bytes files) ltac:(lia)) as Hlen.
  exists (Finalize mh). unfold hashAll. rewrite Hrun. cbn [bind].
  split; [reflexivity|].
  destruct Hwf as [_ _ _ Hhash _ _].
  assert (Hsame : torrentPieceBuffer (Finalize mh) = torrentPieceBuffer mh /\
                  torrentPieceSHA1 (Finalize mh) = torrentPieceSHA1 mh).
  { unfold Finalize. destruct (len (torrentPieceBuffer mh) >? 0); split; reflexivity. }
  destruct Hsame as [Hb Hs].
  split; intros Hmod.
  - unfold Finalize at 1. rewrite Hb, Hbuf, Hlen, Hmod. reflexivity.
  - split; [|exact Hlen].
    unfold Finalize at 1. rewrite Hb, Hs, Hhash, Hbuf, Hlen.
    assert (Hpos : (len (run_bytes files) mod ps >? 0) = true).
    { apply Z.gtb_lt. pose proof (Z.mod_pos_bound (len (run_bytes files)) ps). lia. }
    rewrite Hpos. reflexivity.
Qed.

End Hasher.

(** * Properties of piece-size selection *)

Lemma calculatePieceSize_range (M : MathOps) (total : Z) :
  P_MIN <= calculatePieceSize M total <= P_MAX.
Proof.
  unfold calculatePieceSize, P_MIN, P_CAP, P_MAX.
  destruct (total <=? 0); [lia|].
  cbv zeta.
  repeat match goal with
         | |- context [if ?c then _ else _] => destruct c eqn:?
         end; lia.
Qed.

(** The piece length [main] passes to [NewMultiHasher] always meets the
    precondition of the hasher's theorems. *)
Lemma calculatePieceSize_hashAll (M : MathOps) (total : Z)
    (sha1 sha256 : list byte -> list byte) (files : list FileReads) :
  exists mh',
    hashAll sha1 sha256 (calculatePieceSize M total) files = Done mh'.
Proof.
  pose proof (calculatePieceSize_range M total) as H.
  unfold P_MIN, P_MAX in H.
  destruct (hashAll_run sha1 sha256 (calculatePieceSize M total) files ltac:(lia))
    as (mh' & Hrun & _).
  now exists mh'.
Qed.

(** C5. The result lies between [P_MIN] = 256 KiB and [P_MAX] = 64 MiB for
    every input, whatever values the floating-point primitives return. *)
Theorem calculatePieceSize_in_range (M : MathOps) (total : Z) :
  P_MIN <= calculatePieceSize M total <= P_MAX /\
  P_MIN = 256 * 1024 /\ P_MAX = 64 * 1024 * 1024.
Proof.
  split; [|split; reflexivity].
  unfold calculatePieceSize, P_MIN, P_CAP, P_MAX.
  destruct (total <=? 0); [lia|].
  cbv zeta.
  repeat match goal with
         | |- context [if ?c then _ else _] => destruct c eqn:?
         end; lia.
Qed.

(** *** Exact arithmetic *)

Lemma IZR_two_power (k : Z) : 0 <= k -> IZR (2 ^ k) = powerRZ 2 k.
Proof.
  intros Hk. rewrite <- (Z2Nat.id k Hk) at 1.
  rewrite <- pow_IZR. rewrite pow_powerRZ. now rewrite Z2Nat.id.
Qed.

Lemma powerRZ_two_pos (k : Z) : (0 < powerRZ 2 k)%R.
Proof. apply powerRZ_lt; lra. Qed.

Lemma ln_two_pos : (0 < ln 2)%R.
Proof. pose proof ln_lt_2; lra. Qed.

Lemma ln_powerRZ_two (k : Z) : ln (powerRZ 2 k) = (IZR k * ln 2)%R.
Proof. rewrite powerRZ_Rpower by lra. apply ln_Rpower. Qed.

Lemma floor_log2_between (x : R) (k : Z) :
  (powerRZ 2 k <= x < powerRZ 2 (k + 1))%R -> Zfloor (ln x / ln 2) = k.
Proof.
  intros [Hlo Hhi].
  pose proof (powerRZ_two_pos k) as Hk.
  pose proof ln_two_pos as H2.
  assert (Hx : (0 < x)%R) by lra.
  assert (Hq : (ln x / ln 2 * ln 2 = ln x)%R) by (field; lra).
  apply Zfloor_eq. split.
  - apply Rmult_le_reg_r with (ln 2); [exact H2|].
    rewrite Hq, <- ln_powerRZ_two.
    destruct Hlo as [Hlt | Heq].
    + left. apply ln_increasing; assumption.
    + right. now rewrite Heq.
  - apply Rmult_lt_reg_r with (ln 2); [exact H2|].
    rewrite Hq.
    replace (IZR k + 1)%R with (IZR (k + 1)) by (rewrite plus_IZR; reflexivity).
    rewrite <- ln_powerRZ_two.
    apply ln_increasing; assumption.
Qed.

Lemma powerRZ_two_neg (k : Z) : k < 0 -> (powerRZ 2 k < 1)%R.
Proof.
  intros Hk.
  replace k with (- (- k)) by lia.
  rewrite powerRZ_neg', <- IZR_two_power by lia.
  assert (H2 : 2 <= 2 ^ (- k)).
  { change 2 with (2 ^ 1) at 1. apply Z.pow_le_mono_r; lia. }
  apply IZR_le in H2.
  set (y := IZR (2 ^ (- k))) in *.
  assert (Hy : (0 < y)%R) by lra.
  pose proof (Rinv_0_lt_compat y Hy) as Hi.
  pose proof (Rinv_r y ltac:(lra)) as Hr.
  nra.
Qed.

Lemma Rtrunc_IZR (z : Z) : Rtrunc (IZR z) = z.
Proof.
  unfold Rtrunc. destruct (Rle_dec 0 (IZR z)).
  - apply ZfloorZ.
  - unfold Zceil. rewrite <- opp_IZR, ZfloorZ. lia.
Qed.

Lemma Rmax_IZR (a b : Z) : Rmax (IZR a) (IZR b) = IZR (Z.max a b).
Proof.
  destruct (Z.le_ge_cases a b) as [H | H].
  - rewrite Z.max_r by exact H. apply Rmax_right. now apply IZR_le.
  - rewrite Z.max_l by exact H. apply Rmax_left. now apply IZR_le.
Qed.

Lemma Rpower_two_IZR (e : Z) : Rpower 2 (IZR e) = powerRZ 2 e.
Proof. symmetry. apply powerRZ_Rpower. lra. Qed.

(* int64(math.Max(float64(m), math.Pow(2, e))) for an integer exponent *)
Lemma trunc_max_pow (m e : Z) :
  1 <= m -> Rtrunc (Rmax (IZR m) (Rpower 2 (IZR e))) = Z.max m (2 ^ e).
Proof.
  intros Hm. rewrite Rpower_two_IZR.
  destruct (Z.lt_ge_cases e 0) as [Hneg | Hpos].
  - rewrite Z.pow_neg_r by exact Hneg.
    rewrite Z.max_l by lia.
    rewrite Rmax_left; [apply Rtrunc_IZR|].
    pose proof (powerRZ_two_neg e Hneg). apply IZR_le in Hm. lra.
  - rewrite <- IZR_two_power by exact Hpos.
    rewrite Rmax_IZR. apply Rtrunc_IZR.
Qed.

Lemma floor_log2_IZR (n : Z) : 0 < n -> Zfloor (ln (IZR n) / ln 2) = Z.log2 n.
Proof.
  intros Hn. apply floor_log2_between.
  pose proof (Z.log2_spec n Hn) as [Hlo Hhi].
  pose proof (Z.log2_nonneg n) as Hk.
  rewrite <- !IZR_two_power by lia.
  split; [apply IZR_le | apply IZR_lt]; [exact Hlo | now rewrite <- Z.add_1_r in Hhi].
Qed.

Lemma floor_log2_quot (n d : Z) :
  0 < d -> d <= n -> Zfloor (ln (IZR n / IZR d) / ln 2) = Z.log2 (n / d).
Proof.
  intros Hd Hn. apply floor_log2_between.
  assert (Hq : 0 < n / d) by (apply Z.div_str_pos; lia).
  pose proof (Z.log2_spec _ Hq) as [Hlo Hhi].
  pose proof (Z.log2_nonneg (n / d)) as Hk.
  rewrite <- Z.add_1_r in Hhi.
  rewrite <- !IZR_two_power by lia.
  pose proof (Z.mul_div_le n d Hd) as Hle.
  pose proof (Z.mul_succ_div_gt n d Hd) as Hgt.
  assert (Hd' : (0 < IZR d)%R) by (now apply IZR_lt).
  split.
  - apply Rmult_le_reg_r with (IZR d); [exact Hd'|].
    replace (IZR n / IZR d * IZR d)%R with (IZR n) by (field; lra).
    rewrite <- mult_IZR. apply IZR_le. nia.
  - apply Rmult_lt_reg_r with (IZR d); [exact Hd'|].
    replace (IZR n / IZR d * IZR d)%R with (IZR n) by (field; lra).
    rewrite <- mult_IZR. apply IZR_lt. nia.
Qed.

Lemma quot_gt_IZR (n c t : Z) :
  0 < c -> (IZR n / IZR c > IZR t)%R <-> n > t * c.
Proof.
  intros Hc. assert (Hc' : (0 < IZR c)%R) by (now apply IZR_lt).
  split; intros H.
  - apply Z.lt_gt. apply lt_IZR. rewrite mult_IZR.
    apply Rmult_lt_compat_r with (r := IZR c) in H; [|exact Hc'].
    replace (IZR n / IZR c * IZR c)%R with (IZR n) in H by (field; lra).
    lra.
  - apply Z.gt_lt in H. apply IZR_lt in H. rewrite mult_IZR in H.
    apply Rlt_gt. apply Rmult_lt_reg_r with (IZR c); [exact Hc'|].
    replace (IZR n / IZR c * IZR c)%R with (IZR n) by (field; lra).
    lra.
Qed.

Lemma gtb_false (n m : Z) : n <= m -> (n >? m) = false.
Proof. intros H. rewrite Z.gtb_ltb. now apply Z.ltb_ge. Qed.

Lemma gtb_false_inv (n m : Z) : (n >? m) = false -> n <= m.
Proof. rewrite Z.gtb_ltb. apply Z.ltb_ge. Qed.

Lemma fgt_quot (n c t : Z) :
  0 < c ->
  fgt RealMath (fdiv RealMath (float64 RealMath n) (float64 RealMath c))
      (float64 RealMath t) = (n >? t * c).
Proof.
  intros Hc. cbn [fgt fdiv float64 RealMath].
  destruct (Rgt_dec (IZR n / IZR c) (IZR t)) as [H | H].
  - apply quot_gt_IZR in H; [|exact Hc]. symmetry. apply Z.gtb_lt. lia.
  - destruct (n >? t * c) eqn:E; [|reflexivity].
    exfalso. apply H. apply quot_gt_IZR; [exact Hc|].
    apply Z.gtb_lt in E. lia.
Qed.

Lemma calculatePieceSize_RealMath (total : Z) :
  calculatePieceSize RealMath total = calculatePieceSize_exact total.
Proof.
  unfold calculatePieceSize, calculatePieceSize_exact.
  destruct (total <=? 0) eqn:Htot; [reflexivity|].
  apply Z.leb_gt in Htot.
  cbv zeta.
  assert (HlogExp :
    math_Floor RealMath
      (fsub RealMath (math_Log2 RealMath (float64 RealMath total))
         (float64 RealMath 10)) = IZR (Z.log2 total - 10)).
  { cbn [math_Floor fsub math_Log2 float64 RealMath]. f_equal.
    replace (ln (IZR total) / ln 2 - 10)%R
      with (ln (IZR total) / ln 2 + IZR (- 10))%R by lra.
    rewrite Zfloor_addz, floor_log2_IZR by exact Htot. lia. }
  rewrite HlogExp.
  assert (HbaseLog :
    int64 RealMath
      (math_Max RealMath (float64 RealMath P_MIN)
         (math_Pow RealMath (float64 RealMath 2) (IZR (Z.log2 total - 10))))
    = Z.max P_MIN (2 ^ (Z.log2 total - 10))).
  { cbn [int64 math_Max math_Pow float64 RealMath].
    apply trunc_max_pow. unfold P_MIN. lia. }
  rewrite HbaseLog.
  set (baseLog := Z.max P_MIN (2 ^ (Z.log2 total - 10))).
  set (current := if baseLog >? P_CAP then P_CAP else baseLog).
  assert (Hcur : 0 < current).
  { subst current baseLog. unfold P_MIN, P_CAP.
    destruct (_ >? _); lia. }
  rewrite (fgt_quot total current N_THRESHOLD Hcur).
  destruct (total >? N_THRESHOLD * current) eqn:Hgt; [|reflexivity].
  apply Z.gtb_lt in Hgt.
  assert (Hstep :
    int64 RealMath
      (math_Pow RealMath (float64 RealMath 2)
         (math_Floor RealMath
            (math_Log2 RealMath
               (fdiv RealMath (float64 RealMath total)
                  (float64 RealMath N_THRESHOLD)))))
    = 2 ^ Z.log2 (total / N_THRESHOLD)).
  { cbn [int64 math_Pow math_Floor math_Log2 fdiv float64 RealMath].
    rewrite floor_log2_quot by (unfold N_THRESHOLD in *; nia).
    rewrite Rpower_two_IZR, <- IZR_two_power by apply Z.log2_nonneg.
    apply Rtrunc_IZR. }
  rewrite Hstep. reflexivity.
Qed.

Lemma calculatePieceSize_exact_spec (total : Z) :
  calculatePieceSize_exact total = select_piece_length total.
Proof.
  unfold calculatePieceSize_exact, select_piece_length.
  destruct (total <=? 0) eqn:Htot; [reflexivity|].
  apply Z.leb_gt in Htot. cbv zeta.
  pose proof (Z.log2_spec total Htot) as [Hlo Hhi].
  rewrite <- Z.add_1_r in Hhi.
  set (e := Z.log2 total - 10) in *.
  replace (Z.log2 total + 1) with (e + 11) in Hhi by (subst e; lia).
  change P_MIN with (2 ^ 18). change P_CAP with (2 ^ 22).
  change P_MAX with (2 ^ 26). change N_THRESHOLD with 7500.
  destruct (Z_le_gt_dec e 18) as [He18 | He18].
  - (* small inputs: the floor 2^18 applies *)
    assert (Hp : 2 ^ e <= 2 ^ 18).
    { destruct (Z.lt_ge_cases e 0) as [Hn | Hn].
      - rewrite Z.pow_neg_r by exact Hn. lia.
      - apply Z.pow_le_mono_r; lia. }
    assert (Hb : total < 2 ^ 29).
    { eapply Z.lt_le_trans; [exact Hhi|]. apply Z.pow_le_mono_r; lia. }
    rewrite (Z.max_l _ _ Hp).
    change (2 ^ 18 >? 2 ^ 22) with false. cbv iota.
    change (Z.min (2 ^ 18) (2 ^ 22)) with (2 ^ 18).
    change (2 ^ 29) with 536870912 in Hb. change (2 ^ 18) with 262144.
    assert (H1 : (total >? 7500 * 262144) = false) by (apply gtb_false; lia).
    assert (H2 : (total / 262144 >? 7500) = false).
    { apply gtb_false.
      assert (total / 262144 < 2048) by (apply Z.div_lt_upper_bound; lia). lia. }
    rewrite H1, H2. reflexivity.
  - destruct (Z_le_gt_dec e 22) as [He22 | He22].
    + (* the piece length follows the size: 2^e *)
      assert (Hp18 : 2 ^ 18 < 2 ^ e) by (apply Z.pow_lt_mono_r; lia).
      assert (Hp22 : 2 ^ e <= 2 ^ 22) by (apply Z.pow_le_mono_r; lia).
      rewrite Z.pow_add_r in Hhi by lia.
      change (2 ^ 11) with 2048 in Hhi.
      set (p := 2 ^ e) in *.
      change (2 ^ 18) with 262144 in *. change (2 ^ 22) with 4194304 in *.
      rewrite (Z.max_r 262144 p) by lia.
      rewrite (Z.min_l p 4194304) by lia.
      assert (H0 : (p >? 4194304) = false) by (apply gtb_false; lia).
      assert (H1 : (total >? 7500 * p) = false) by (apply gtb_false; nia).
      assert (H2 : (total / p >? 7500) = false).
      { apply gtb_false.
        assert (total / p < 2048) by (apply Z.div_lt_upper_bound; lia). lia. }
      rewrite H0, H1, H2.
      assert (H3 : (p <? 262144) = false) by (apply Z.ltb_ge; lia).
      rewrite H3. lia.
    + (* large inputs: capped at 2^22, then stepped by the piece count *)
      assert (Hp22 : 2 ^ 22 < 2 ^ e) by (apply Z.pow_lt_mono_r; lia).
      set (p := 2 ^ e) in *.
      change (2 ^ 18) with 262144 in *. change (2 ^ 22) with 4194304 in *.
      change (2 ^ 26) with 67108864.
      rewrite (Z.max_r 262144 p) by lia.
      rewrite (Z.min_r p 4194304) by lia.
      assert (H0 : (p >? 4194304) = true) by (apply Z.gtb_lt; lia).
      rewrite H0.
      set (stepped := 2 ^ Z.log2 (total / 7500)).
      destruct (total / 4194304 >? 7500) eqn:Hint.
      * apply Z.gtb_lt in Hint.
        assert (Hreal : (total >? 7500 * 4194304) = true).
        { apply Z.gtb_lt.
          pose proof (Z.mul_div_le total 4194304 ltac:(lia)). lia. }
        rewrite Hreal.
        destruct (stepped <? 4194304) eqn:E1;
          [apply Z.ltb_lt in E1 | apply Z.ltb_ge in E1].
        -- rewrite (Z.max_r stepped 4194304) by lia.
           change (4194304 >? 67108864) with false. cbv iota.
           change (4194304 <? 262144) with false. cbv iota. lia.
        -- rewrite (Z.max_l stepped 4194304) by lia.
           destruct (stepped >? 67108864) eqn:E2;
             [apply Z.gtb_lt in E2 | apply gtb_false_inv in E2].
           ++ change (67108864 <? 262144) with false. cbv iota. lia.
           ++ assert (E3 : (stepped <? 262144) = false) by (apply Z.ltb_ge; lia).
              rewrite E3. lia.
      * apply gtb_false_inv in Hint.
        assert (Hub : total < 7501 * 4194304).
        { pose proof (Z.mul_succ_div_gt total 4194304 ltac:(lia)). lia. }
        destruct (total >? 7500 * 4194304) eqn:Hreal.
        -- (* between 7500 and 7501 pieces: the step is 2^22 again *)
           apply Z.gtb_lt in Hreal.
           assert (Hlog : Z.log2 (total / 7500) = 22).
           { apply Z.log2_unique; [lia|].
             change (2 ^ 22) with 4194304. change (2 ^ (22 + 1)) with 8388608.
             split.
             - apply Z.div_le_lower_bound; lia.
             - apply Z.div_lt_upper_bound; lia. }
           subst stepped. rewrite Hlog. reflexivity.
        -- reflexivity.
Qed.

Lemma calculatePieceSize_RealMath_spec (total : Z) :
  calculatePieceSize RealMath total = select_piece_length total.
Proof.
  rewrite calculatePieceSize_RealMath. apply calculatePieceSize_exact_spec.
Qed.

(** The input of the README (222.9 MiB), 1 GiB and 100 GiB. *)
Example calculatePieceSize_README :
  calculatePieceSize RealMath 233727590 = 256 * 1024.
Proof. rewrite calculatePieceSize_RealMath_spec. reflexivity. Qed.

Example calculatePieceSize_1GiB :
  calculatePieceSize RealMath (2 ^ 30) = 1024 * 1024.
Proof. rewrite calculatePieceSize_RealMath_spec. reflexivity. Qed.

Example calculatePieceSize_100GiB :
  calculatePieceSize RealMath (100 * 2 ^ 30) = 8 * 1024 * 1024.
Proof. rewrite calculatePieceSize_RealMath_spec. reflexivity. Qed.

(** Under exact arithmetic, and only there, [calculatePieceSize] computes
    for every input the piece length of the algorithm of section 4.1 read
    over the integers. *)
Theorem calculatePieceSize_follows_spec (total : Z) :
  calculatePieceSize RealMath total = select_piece_length total.
Proof.
  unfold select_piece_length.
  rewrite calculatePieceSize_RealMath, calculatePieceSize_exact_spec.
  reflexivity.
Qed.

(** *** Shape of the piece length under exact arithmetic *)

Lemma calculatePieceSize_exact_exponent (total : Z) :
  calculatePieceSize_exact total = 2 ^ piece_exponent total.
Proof.
  unfold calculatePieceSize_exact, piece_exponent.
  destruct (total <=? 0) eqn:Htot; [reflexivity|].
  apply Z.leb_gt in Htot. cbv zeta.
  set (e := Z.log2 total - 10).
  change P_MIN with (2 ^ 18). change P_CAP with (2 ^ 22).
  change P_MAX with (2 ^ 26). change N_THRESHOLD with 7500.
  pose proof (Z.log2_spec total Htot) as [Hlo Hhi].
  rewrite <- Z.add_1_r in Hhi.
  replace (Z.log2 total + 1) with (e + 11) in Hhi by (subst e; lia).
  destruct (Z.leb_spec e 22) as [He22 | He22].
  - destruct (Z_le_gt_dec e 18) as [He18 | He18].
    + assert (Hp : 2 ^ e <= 2 ^ 18).
      { destruct (Z.lt_ge_cases e 0) as [Hn | Hn].
        - rewrite Z.pow_neg_r by exact Hn. lia.
        - apply Z.pow_le_mono_r; lia. }
      assert (Hb : total < 2 ^ 29).
      { eapply Z.lt_le_trans; [exact Hhi|]. apply Z.pow_le_mono_r; lia. }
      rewrite (Z.max_l _ _ Hp), (Z.max_l 18 e) by lia.
      change (2 ^ 18 >? 2 ^ 22) with false. cbv iota.
      change (2 ^ 29) with 536870912 in Hb. change (2 ^ 18) with 262144.
      rewrite gtb_false by lia. reflexivity.
    + assert (Hp18 : 2 ^ 18 < 2 ^ e) by (apply Z.pow_lt_mono_r; lia).
      assert (Hp22 : 2 ^ e <= 2 ^ 22) by (apply Z.pow_le_mono_r; lia).
      rewrite Z.pow_add_r in Hhi by lia.
      change (2 ^ 11) with 2048 in Hhi.
      rewrite (Z.max_r 18 e) by lia.
      set (p := 2 ^ e) in *.
      change (2 ^ 18) with 262144 in *. change (2 ^ 22) with 4194304 in *.
      rewrite (Z.max_r 262144 p) by lia.
      rewrite (gtb_false p 4194304) by lia.
      rewrite (gtb_false total (7500 * p)) by nia.
      assert (H3 : (p <? 262144) = false) by (apply Z.ltb_ge; lia).
      now rewrite H3.
  - assert (Hp22 : 2 ^ 22 < 2 ^ e) by (apply Z.pow_lt_mono_r; lia).
    set (p := 2 ^ e) in *.
    change (2 ^ 18) with 262144 in *. change (2 ^ 22) with 4194304 in *.
    change (2 ^ 26) with 67108864.
    rewrite (Z.max_r 262144 p) by lia.
    assert (H0 : (p >? 4194304) = true) by (apply Z.gtb_lt; lia).
    rewrite H0.
    destruct (total >? 7500 * 4194304) eqn:Hgt; [|reflexivity].
    apply Z.gtb_lt in Hgt.
    set (j := Z.log2 (total / 7500)).
    assert (Hj : 22 <= j).
    { subst j. change 22 with (Z.log2 (2 ^ 22)). apply Z.log2_le_mono.
      change (2 ^ 22) with 4194304. apply Z.div_le_lower_bound; lia. }
    rewrite (Z.max_l j 22) by lia.
    assert (Hlow : (2 ^ j <? 4194304) = false).
    { apply Z.ltb_ge. change 4194304 with (2 ^ 22). apply Z.pow_le_mono_r; lia. }
    rewrite Hlow.
    destruct (Z_le_gt_dec j 26) as [Hj26 | Hj26].
    + rewrite (Z.min_l j 26) by lia.
      rewrite gtb_false.
      * assert (H3 : (2 ^ j <? 262144) = false).
        { apply Z.ltb_ge. change 262144 with (2 ^ 18). apply Z.pow_le_mono_r; lia. }
        now rewrite H3.
      * change 67108864 with (2 ^ 26). apply Z.pow_le_mono_r; lia.
    + rewrite (Z.min_r j 26) by lia.
      assert (H1 : (2 ^ j >? 67108864) = true).
      { apply Z.gtb_lt. change 67108864 with (2 ^ 26). apply Z.pow_lt_mono_r; lia. }
      rewrite H1. reflexivity.
Qed.

Lemma piece_exponent_range (total : Z) : 18 <= piece_exponent total <= 26.
Proof.
  unfold piece_exponent.
  destruct (total <=? 0); [lia|]. cbv zeta.
  destruct (Z.leb_spec (Z.log2 total - 10) 22); [lia|].
  destruct (total >? N_THRESHOLD * P_CAP); lia.
Qed.

Lemma piece_exponent_mono (t1 t2 : Z) :
  t1 <= t2 -> piece_exponent t1 <= piece_exponent t2.
Proof.
  intros Hle. pose proof (piece_exponent_range t2) as Hr2.
  unfold piece_exponent in *.
  destruct (Z.leb_spec t1 0) as [H1 | H1]; [lia|].
  destruct (Z.leb_spec t2 0) as [H2 | H2]; [lia|].
  cbv zeta in *.
  pose proof (Z.log2_le_mono t1 t2 Hle) as Hlog.
  assert (Hdiv : Z.log2 (t1 / N_THRESHOLD) <= Z.log2 (t2 / N_THRESHOLD)).
  { apply Z.log2_le_mono. apply Z.div_le_mono; [reflexivity | exact Hle]. }
  destruct (Z.leb_spec (Z.log2 t1 - 10) 22);
    destruct (Z.leb_spec (Z.log2 t2 - 10) 22); try lia;
    repeat match goal with
           | |- context [?a >? ?b] =>
               let G := fresh "G" in
               destruct (a >? b) eqn:G;
               [apply Z.gtb_lt in G | apply gtb_false_inv in G]
           end; lia.
Qed.

(** Under exact arithmetic the piece length is a power of two between
    2^18 and 2^26. *)
Theorem calculatePieceSize_power_of_two (total : Z) :
  exists k : Z, 18 <= k <= 26 /\ calculatePieceSize RealMath total = 2 ^ k.
Proof.
  exists (piece_exponent total). split; [apply piece_exponent_range|].
  rewrite calculatePieceSize_RealMath. apply calculatePieceSize_exact_exponent.
Qed.

(** Under exact arithmetic a larger input never gets a smaller piece
    length. *)
Theorem calculatePieceSize_monotone (t1 t2 : Z) :
  t1 <= t2 ->
  calculatePieceSize RealMath t1 <= calculatePieceSize RealMath t2.
Proof.
  intros Hle.
  rewrite !calculatePieceSize_RealMath, !calculatePieceSize_exact_exponent.
  apply Z.pow_le_mono_r; [lia|]. now apply piece_exponent_mono.
Qed.

(** Under exact arithmetic an input below [N_THRESHOLD * 2 * P_MAX] bytes is
    cut into fewer than [2 * N_THRESHOLD] pieces; from there on the piece
    length is [P_MAX]. *)
Theorem calculatePieceSize_piece_count (total : Z) :
  (total < N_THRESHOLD * (2 * P_MAX) ->
   total < 2 * N_THRESHOLD * calculatePieceSize RealMath total) /\
  (N_THRESHOLD * (2 * P_MAX) <= total ->
   calculatePieceSize RealMath total = P_MAX).
Proof.
  rewrite calculatePieceSize_RealMath, calculatePieceSize_exact_exponent.
  pose proof (piece_exponent_range total) as Hr.
  assert (Hpos : 2 ^ 18 <= 2 ^ piece_exponent total)
    by (apply Z.pow_le_mono_r; lia).
  change (2 ^ 18) with 262144 in Hpos.
  unfold piece_exponent in *.
  change N_THRESHOLD with 7500 in *. change P_MAX with 67108864 in *.
  change P_CAP with 4194304 in *.
  destruct (Z.leb_spec total 0) as [H0 | H0]; [split; intros; lia|].
  cbv zeta in *.
  pose proof (Z.log2_spec total H0) as [Hlo Hhi].
  rewrite <- Z.add_1_r in Hhi.
  set (e := Z.log2 total - 10) in *.
  replace (Z.log2 total + 1) with (e + 11) in Hhi by (subst e; lia).
  destruct (Z.leb_spec e 22) as [He | He].
  - assert (Hb : total < 2 ^ 33).
    { eapply Z.lt_le_trans; [exact Hhi|]. apply Z.pow_le_mono_r; lia. }
    change (2 ^ 33) with 8589934592 in Hb.
    assert (Hm : 2 ^ (e + 11) <= 2 ^ (Z.max 18 e + 11))
      by (apply Z.pow_le_mono_r; lia).
    rewrite (Z.pow_add_r 2 (Z.max 18 e) 11) in Hm by lia.
    change (2 ^ 11) with 2048 in Hm.
    split; intros; lia.
  - destruct (total >? 7500 * 4194304) eqn:G.
    + apply Z.gtb_lt in G.
      assert (Ht : 0 < total / 7500) by (apply Z.div_str_pos; lia).
      pose proof (Z.log2_spec _ Ht) as [Jlo Jhi].
      rewrite <- Z.add_1_r in Jhi.
      set (j := Z.log2 (total / 7500)) in *.
      pose proof (Z.mul_succ_div_gt total 7500 ltac:(lia)) as Hq.
      pose proof (Z.mul_div_le total 7500 ltac:(lia)) as Hq'.
      split; intros Hbig.
      * assert (Hj : j <= 26).
        { destruct (Z_le_gt_dec j 26) as [|Hgt]; [assumption|].
          assert (2 ^ 27 <= 2 ^ j) by (apply Z.pow_le_mono_r; lia).
          change (2 ^ 27) with 134217728 in *. lia. }
        assert (Hmono : 2 ^ j <= 2 ^ Z.min (Z.max j 22) 26)
          by (apply Z.pow_le_mono_r; lia).
        rewrite Z.pow_add_r in Jhi by (subst j; try apply Z.log2_nonneg; lia).
        change (2 ^ 1) with 2 in Jhi.
        set (q := 2 ^ j) in *. set (r := 2 ^ Z.min (Z.max j 22) 26) in *. lia.
      * assert (Hj : 26 <= j).
        { change 26 with (Z.log2 (2 ^ 26)). apply Z.log2_le_mono.
          change (2 ^ 26) with 67108864. apply Z.div_le_lower_bound; lia. }
        rewrite Z.min_r by lia. reflexivity.
    + apply gtb_false_inv in G. split; intros; lia.
Qed.

(** * Properties of the mirror URLs *)

Section PathsProofs.

Variable Separator : ascii.

Lemma substring_all (x : string) : substring 0 (String.length x) x = x.
Proof. induction x as [|c x IH]; cbn; [reflexivity | now rewrite IH]. Qed.

Lemma substring_app_tail (p x : string) :
  substring (String.length p) (String.length x) (p ++ x) = x.
Proof. induction p as [|c p IH]; cbn; [apply substring_all | exact IH]. Qed.

Lemma string_length_app (p x : string) :
  String.length (p ++ x) = (String.length p + String.length x)%nat.
Proof. induction p as [|c p IH]; cbn; [reflexivity | now rewrite IH]. Qed.

Lemma substring_split (s : string) :
  forall n m, (n + m = String.length s)%nat ->
    s = (substring 0 n s ++ substring n m s)%string.
Proof.
  induction s as [|c s IH]; intros n m H.
  - cbn in H. assert (n = 0%nat) by lia. assert (m = 0%nat) by lia. subst.
    reflexivity.
  - destruct n as [|n].
    + cbn in H. subst m. cbn. now rewrite substring_all.
    + cbn in *. f_equal. apply IH. lia.
Qed.

Lemma HasSuffix_ends_with (s x : string) :
  HasSuffix s x = true <-> ends_with s x.
Proof.
  unfold HasSuffix, ends_with. split.
  - intros H. apply andb_true_iff in H. destruct H as [Hlen Heq].
    apply Nat.leb_le in Hlen. apply String.eqb_eq in Heq.
    exists (substring 0 (String.length s - String.length x) s).
    pose proof (substring_split s (String.length s - String.length x)
                  (String.length x) ltac:(lia)) as Hs.
    rewrite Heq in Hs. exact Hs.
  - intros [p ->]. rewrite string_length_app.
    apply andb_true_iff. split; [apply Nat.leb_le; lia|].
    replace (String.length p + String.length x - String.length x)%nat
      with (String.length p) by lia.
    rewrite substring_app_tail. apply String.eqb_refl.
Qed.

Lemma mirrorLoop_nth (isDir : bool) (fiRelPath relPath : string)
    (mirrors : list string) :
  forall (i : Z) (urls : list MetalinkURL) (k : nat) (m : string),
    nth_error mirrors k = Some m ->
    nth_error (mirrorLoop isDir fiRelPath relPath i mirrors urls)
              (length urls + k)
    = Some {| Priority := i + Z.of_nat k + 1;
              Value := if negb isDir && HasSuffix m fiRelPath then m
                       else (TrimRight m "/" ++ "/" ++ relPath)%string |}.
Proof.
  induction mirrors as [|m0 mirrors IH]; intros i urls k m Hk.
  - destruct k; discriminate.
  - cbn [mirrorLoop]. destruct k as [|k].
    + cbn in Hk. injection Hk as ->.
      rewrite Nat.add_0_r, Z.add_0_r.
      assert (Hpre : forall (rest : list string) j acc,
        (length urls < length acc)%nat ->
        nth_error acc (length urls) = nth_error
          (mirrorLoop isDir fiRelPath relPath j rest acc) (length urls)).
      { induction rest as [|r rest IHr]; intros j acc Hacc; [reflexivity|].
        cbn [mirrorLoop]. rewrite <- IHr by (rewrite length_app; lia).
        now rewrite nth_error_app1. }
      rewrite <- Hpre by (rewrite length_app; cbn; lia).
      rewrite nth_error_app2, Nat.sub_diag by lia. reflexivity.
    + cbn in Hk.
      specialize (IH (i + 1) (urls ++ [{| Priority := i + 1;
         Value := if negb isDir && HasSuffix m0 fiRelPath then m0
                  else (TrimRight m0 "/" ++ "/" ++ relPath)%string |}]) k m Hk).
      rewrite length_app in IH. cbn [length] in IH.
      replace (length urls + S k)%nat with (length urls + 1 + k)%nat by lia.
      rewrite IH. do 2 f_equal. lia.
Qed.

Lemma not_ends_with_empty (x : string) : x <> EmptyString -> ~ ends_with EmptyString x.
Proof.
  intros Hx [p Hp]. destruct p; cbn in Hp; [now subst|discriminate].
Qed.

Lemma TrimRight_slash (s : string) :
  exists t,
    s = (TrimRight s "/" ++ t)%string /\ all_slashes t /\
    ~ ends_with (TrimRight s "/") "/".
Proof.
  induction s as [|c s IH].
  - exists EmptyString. cbn. repeat split.
    apply not_ends_with_empty. discriminate.
  - destruct IH as (t & Hs & Ht & Hend). cbn [TrimRight].
    destruct (TrimRight s "/") as [|d u] eqn:HT.
    + cbn in Hs. subst t. cbn [in_cutset]. rewrite orb_false_r.
      destruct (Ascii.eqb_spec c "/") as [-> | Hc].
      * exists (String "/" s). cbn. repeat split; try assumption.
      * exists s. cbn. repeat split; try assumption.
        intros [p Hp]. destruct p as [|c' p]; cbn in Hp.
        -- congruence.
        -- injection Hp as _ Hp. destruct p; discriminate.
    + exists t. split; [cbn; now rewrite Hs at 1|]. split; [exact Ht|].
      intros [p Hp]. destruct p as [|c' p]; cbn in Hp; [discriminate|].
      injection Hp as _ Hp. apply Hend. now exists p.
Qed.

Lemma torrentURLList_nth (isDir : bool) (baseName : string)
    (mirrors : list string) (k : nat) (m : string) :
  nth_error mirrors k = Some m ->
  nth_error (torrentURLList isDir baseName mirrors) k
  = Some (if isDir then (TrimRight m "/" ++ "/")%string
          else if HasSuffix m baseName then m
               else (TrimRight m "/" ++ "/" ++ baseName)%string).
Proof.
  intros Hk. unfold torrentURLList.
  assert (Hlen : (0 <? Z.of_nat (length mirrors)) = true).
  { apply Z.ltb_lt. destruct mirrors; [destruct k; discriminate | cbn; lia]. }
  rewrite Hlen. destruct isDir; rewrite nth_error_map, Hk; reflexivity.
Qed.

Example fileURLs_single_file :
  map Value (fileURLs "/" false "f.zip"
               ["https://a/"; "https://b/f.zip"; "https://c//"]%string "f.zip")
  = ["https://a/f.zip"; "https://b/f.zip"; "https://c/f.zip"]%string.
Proof. reflexivity. Qed.

Example fileURLs_directory :
  map Value (fileURLs "/" true "dir"
               ["https://a/"; "https://b/f.zip"]%string "sub/f.zip")
  = ["https://a/dir/sub/f.zip"; "https://b/f.zip/dir/sub/f.zip"]%string.
Proof. reflexivity. Qed.

(** *** Further properties of the URLs and paths *)

Lemma mirrorLoop_priorities (isDir : bool) (fiRelPath relPath : string)
    (mirrors : list string) :
  forall (i : Z) (urls : list MetalinkURL),
    map Priority (mirrorLoop isDir fiRelPath relPath i mirrors urls)
    = map Priority urls
      ++ map (fun k => i + Z.of_nat k + 1) (seq 0 (length mirrors)).
Proof.
  induction mirrors as [|m mirrors IH]; intros i urls.
  - cbn. now rewrite app_nil_r.
  - cbn [mirrorLoop length seq map]. rewrite IH, map_app, <- app_assoc.
    cbn [map app Priority]. rewrite Z.add_0_r. do 2 f_equal.
    rewrite <- seq_shift, map_map. apply map_ext. intros k. lia.
Qed.

(** Every mirror yields one [url] element; the priorities are 1, 2, ... in
    the order of the mirrors. *)
Theorem fileURLs_priorities (isDir : bool) (baseName : string)
    (mirrors : list string) (fiRelPath : string) :
  map Priority (fileURLs Separator isDir baseName mirrors fiRelPath)
    = map (fun k => Z.of_nat k + 1) (seq 0 (length mirrors)) /\
  length (fileURLs Separator isDir baseName mirrors fiRelPath) = length mirrors.
Proof.
  assert (H : map Priority (fileURLs Separator isDir baseName mirrors fiRelPath)
              = map (fun k => Z.of_nat k + 1) (seq 0 (length mirrors))).
  { unfold fileURLs. rewrite mirrorLoop_priorities. reflexivity. }
  split; [exact H|].
  apply (f_equal (@length Z)) in H.
  now rewrite !length_map, length_seq in H.
Qed.

(** Joining never doubles the slash: a mirror is some [t] that does not end
    with a slash, followed by slashes only; for a directory the file URL is
    [t], one slash and the name, and the web seed is [t] and one slash. *)
Theorem joined_url_single_slash (baseName : string) (mirrors : list string)
    (k : nat) (m : string) :
  nth_error mirrors k = Some m ->
  exists t slashes : string,
    m = (t ++ slashes)%string /\ all_slashes slashes /\ ~ ends_with t "/" /\
    (forall fiRelPath : string,
        option_map Value
          (nth_error (fileURLs Separator true baseName mirrors fiRelPath) k)
        = Some (t ++ "/" ++ baseName ++ "/" ++ ToSlash Separator fiRelPath)%string) /\
    nth_error (torrentURLList true baseName mirrors) k = Some (t ++ "/")%string.
Proof.
  intros Hk.
  destruct (TrimRight_slash m) as (slashes & Hm & Hall & Hend).
  exists (TrimRight m "/"), slashes.
  split; [exact Hm|]. split; [exact Hall|]. split; [exact Hend|]. split.
  - intros fiRelPath. unfold fileURLs.
    rewrite (mirrorLoop_nth true fiRelPath _ mirrors 0 [] k m Hk). reflexivity.
  - now rewrite (torrentURLList_nth true baseName mirrors k m Hk).
Qed.

Lemma ReplaceAll_length (s : string) (old new : ascii) :
  String.length (ReplaceAll s old new) = String.length s.
Proof. induction s as [|c s IH]; cbn; [reflexivity | now rewrite IH]. Qed.

Lemma ReplaceAll_absent (s : string) (old new : ascii) :
  ~ occurs old s -> ReplaceAll s old new = s.
Proof.
  induction s as [|c s IH]; intros H; [reflexivity|].
  cbn [ReplaceAll occurs] in *.
  destruct (Ascii.eqb_spec c old) as [-> | Hc]; [exfalso; apply H; now left|].
  f_equal. apply IH. intros Ho. apply H. now right.
Qed.

Lemma ReplaceAll_removes (s : string) (old new : ascii) :
  old <> new -> ~ occurs old (ReplaceAll s old new).
Proof.
  intros Hne. induction s as [|c s IH]; [exact (fun H => H)|].
  cbn [ReplaceAll occurs]. intros [H | H]; [|exact (IH H)].
  destruct (Ascii.eqb_spec c old) as [-> | Hc]; congruence.
Qed.

(** [filepath.ToSlash] keeps the length of a path, leaves a path without
    separator as it is, and, where the separator is not the slash, leaves
    no separator in its result. *)
Theorem ToSlash_normalises (path : string) :
  String.length (ToSlash Separator path) = String.length path /\
  (~ occurs Separator path -> ToSlash Separator path = path) /\
  (Separator = "/"%char -> ToSlash Separator path = path) /\
  (Separator <> "/"%char -> ~ occurs Separator (ToSlash Separator path)).
Proof.
  unfold ToSlash. destruct (Ascii.eqb_spec Separator "/") as [E | E].
  - split; [reflexivity|]. split; [reflexivity|]. split; [reflexivity|].
    intros H. contradiction.
  - split; [apply ReplaceAll_length|]. split; [apply ReplaceAll_absent|].
    split; [intros H; contradiction|].
    intros _. now apply ReplaceAll_removes.
Qed.

Lemma concat_two_or_more (sp x y : string) (l : list string) :
  String.concat sp (x :: y :: l) = (x ++ sp ++ String.concat sp (y :: l))%string.
Proof. reflexivity. Qed.

Lemma Split_nonempty (s : string) (sep : ascii) : Split s sep <> [].
Proof.
  destruct s as [|c s]; cbn [Split]; [discriminate|].
  destruct (Ascii.eqb c sep); [discriminate|].
  destruct (Split s sep); discriminate.
Qed.

Lemma Split_join (s : string) (sep : ascii) :
  String.concat (String sep EmptyString) (Split s sep) = s.
Proof.
  induction s as [|c s IH]; [reflexivity|].
  cbn [Split]. pose proof (Split_nonempty s sep) as Hne.
  destruct (Ascii.eqb_spec c sep) as [-> | Hc].
  - destruct (Split s sep) as [|h t]; [contradiction|].
    rewrite concat_two_or_more, IH. reflexivity.
  - destruct (Split s sep) as [|h [|h' t]]; [contradiction| |].
    + change (String c h = String c s). f_equal. exact IH.
    + rewrite concat_two_or_more in *. rewrite <- IH. reflexivity.
Qed.

Lemma Split_clean (s : string) (sep : ascii) :
  Forall (fun c => ~ occurs sep c) (Split s sep).
Proof.
  induction s as [|c s IH]; [repeat constructor; exact (fun H => H)|].
  cbn [Split]. destruct (Ascii.eqb_spec c sep) as [-> | Hc].
  - constructor; [exact (fun H => H) | exact IH].
  - pose proof (Split_nonempty s sep) as Hne.
    destruct (Split s sep) as [|h t]; [contradiction|].
    inversion IH as [|? ? Hh Ht]; subst.
    constructor; [|exact Ht].
    cbn [occurs]. intros [H | H]; [congruence | exact (Hh H)].
Qed.

(** The components [strings.Split] cuts a path into contain no separator,
    are never none, and joined with the separator give the path back. *)
Theorem Split_components (s : string) (sep : ascii) :
  String.concat (String sep EmptyString) (Split s sep) = s /\
  Forall (fun c => ~ occurs sep c) (Split s sep) /\
  Split s sep <> [].
Proof.
  split; [apply Split_join|]. split; [apply Split_clean | apply Split_nonempty].
Qed.

(** C8. Let [t] be the mirror with its trailing slashes removed: the mirror
    is [t] followed by slashes only, and [t] does not end with a slash.  For
    a single file (its enumerated relative path is the base name of the
    input path) a mirror that ends with that name is the file's URL, and the
    torrent's web seed, as it stands; any other mirror gives [t], one slash
    and the name.  [filepath.ToSlash] leaves a name as it is when the
    separator is the slash or does not occur in it, and otherwise leaves no
    separator in it.  For a directory the URL is always the joined form,
    [t], one slash, the directory's name, one slash and the slash-normalised
    relative path, and the web seed is [t] and one slash. *)
Theorem mirror_url_rule (baseName : string) (mirrors : list string)
    (k : nat) (m : string) :
  nth_error mirrors k = Some m ->
  let t := TrimRight m "/" in
  ((exists slashes : string, m = (t ++ slashes)%string /\ all_slashes slashes) /\
   ~ ends_with t "/") /\
  (ends_with m baseName ->
     nth_error (fileURLs Separator false baseName mirrors baseName) k
       = Some {| Priority := Z.of_nat k + 1; Value := m |} /\
     nth_error (torrentURLList false baseName mirrors) k = Some m) /\
  (~ ends_with m baseName ->
     nth_error (fileURLs Separator false baseName mirrors baseName) k
       = Some {| Priority := Z.of_nat k + 1;
                 Value := (t ++ "/" ++ ToSlash Separator baseName)%string |} /\
     nth_error (torrentURLList false baseName mirrors) k
       = Some (t ++ "/" ++ baseName)%string) /\
  (forall p : string,
     (Separator = "/"%char \/ ~ occurs Separator p -> ToSlash Separator p = p) /\
     (Separator <> "/"%char -> ~ occurs Separator (ToSlash Separator p))) /\
  (forall fiRelPath : string,
     nth_error (fileURLs Separator true baseName mirrors fiRelPath) k
       = Some {| Priority := Z.of_nat k + 1;
                 Value := (t ++ "/" ++ baseName ++ "/"
                           ++ ToSlash Separator fiRelPath)%string |}) /\
  nth_error (torrentURLList true baseName mirrors) k = Some (t ++ "/")%string.
Proof.
  intros Hk. cbv zeta.
  pose proof (fun isDir fiRelPath relPath =>
                mirrorLoop_nth isDir fiRelPath relPath mirrors 0 [] k m Hk) as Hurl.
  cbn [length Nat.add Z.add] in Hurl.
  pose proof (fun isDir => torrentURLList_nth isDir baseName mirrors k m Hk) as Hseed.
  destruct (TrimRight_slash m) as (slashes & Hm & Hall & Hend).
  split; [split; [now exists slashes | exact Hend]|].
  split; [|split; [|split; [|split]]].
  - intros H. apply HasSuffix_ends_with in H. split.
    + unfold fileURLs. rewrite Hurl. cbn [negb andb]. now rewrite H.
    + rewrite Hseed. now rewrite H.
  - intros H.
    assert (E : HasSuffix m baseName = false).
    { destruct (HasSuffix m baseName) eqn:E; [|reflexivity].
      apply HasSuffix_ends_with in E. contradiction. }
    split.
    + unfold fileURLs. rewrite Hurl. cbn [negb andb]. now rewrite E.
    + rewrite Hseed. now rewrite E.
  - intros p. unfold ToSlash.
    destruct (Ascii.eqb_spec Separator "/") as [E | E].
    + split; [reflexivity | intros H; contradiction].
    + split; [|intros _; now apply ReplaceAll_removes].
      intros [H | H]; [contradiction | now apply ReplaceAll_absent].
  - intros fiRelPath. unfold fileURLs. rewrite Hurl. reflexivity.
  - rewrite Hseed. reflexivity.
Qed.

End PathsProofs.

(** * Properties of the documents *)

Section Documents.

Variable sha1 : list byte -> list byte.
Variable sha256 : list byte -> list byte.
Variable M : MathOps.
Variable Separator : ascii.

Lemma mapIndex_filter_other (m : ResultMap) (k k' : string) :
  k <> k' ->
  mapIndex (filter (fun kv => negb (String.eqb (fst kv) k)) m) k' = mapIndex m k'.
Proof.
  intros Hne. induction m as [|[k0 v] m IH]; [reflexivity|].
  cbn [filter fst mapIndex].
  destruct (String.eqb_spec k0 k) as [-> | Hk0]; cbn [negb].
  - destruct (String.eqb_spec k k'); [contradiction | exact IH].
  - cbn [mapIndex]. now rewrite IH.
Qed.

Lemma mapIndex_mapAssign (m : ResultMap) (k k' : string) (v : FileHashResult) :
  mapIndex (mapAssign m k v) k'
  = if String.eqb k k' then v else mapIndex m k'.
Proof.
  unfold mapAssign. cbn [mapIndex].
  destruct (String.eqb_spec k k') as [E | E]; [reflexivity|].
  now apply mapIndex_filter_other.
Qed.

Lemma buildResultMap_snoc (results : list FileHashResult) (r : FileHashResult) :
  buildResultMap (results ++ [r])
  = mapAssign (buildResultMap results) (RelPath r) r.
Proof. unfold buildResultMap. now rewrite fold_left_app. Qed.

Lemma buildResultMap_missing (results : list FileHashResult) (k : string) :
  ~ In k (map RelPath results) ->
  mapIndex (buildResultMap results) k = zeroFileHashResult.
Proof.
  induction results as [|r results IH] using rev_ind; intros Hk; [reflexivity|].
  rewrite buildResultMap_snoc, mapIndex_mapAssign.
  rewrite map_app, in_app_iff in Hk. cbn [map In] in Hk.
  destruct (String.eqb_spec (RelPath r) k) as [E | E]; [tauto|].
  apply IH. tauto.
Qed.

Lemma buildResultMap_last (rs2 : list FileHashResult) :
  forall (rs1 : list FileHashResult) (r : FileHashResult),
    ~ In (RelPath r) (map RelPath rs2) ->
    mapIndex (buildResultMap (rs1 ++ r :: rs2)) (RelPath r) = r.
Proof.
  induction rs2 as [|x rs2 IH] using rev_ind; intros rs1 r Hr.
  - rewrite buildResultMap_snoc, mapIndex_mapAssign.
    now rewrite String.eqb_refl.
  - rewrite map_app, in_app_iff in Hr. cbn [map In] in Hr.
    rewrite app_comm_cons, app_assoc, buildResultMap_snoc, mapIndex_mapAssign.
    destruct (String.eqb_spec (RelPath x) (RelPath r)) as [E | E]; [tauto|].
    apply IH. tauto.
Qed.

Lemma filter_keys_subset (m : ResultMap) (f : string * FileHashResult -> bool)
    (k : string) :
  In k (map fst (filter f m)) -> In k (map fst m).
Proof.
  rewrite !in_map_iff. intros (kv & Hk & Hin).
  apply filter_In in Hin. exists kv. tauto.
Qed.

Lemma filter_keys_NoDup (m : ResultMap) (f : string * FileHashResult -> bool) :
  NoDup (map fst m) -> NoDup (map fst (filter f m)).
Proof.
  induction m as [|kv m IH]; intros H; [constructor|].
  cbn [map] in H. inversion H as [|? ? Hnotin Hrest]; subst.
  cbn [filter]. destruct (f kv); [|now apply IH].
  cbn [map]. constructor; [|now apply IH].
  intros Hin. apply Hnotin. eapply filter_keys_subset, Hin.
Qed.

Lemma buildResultMap_keys (results : list FileHashResult) :
  NoDup (map fst (buildResultMap results)).
Proof.
  induction results as [|r results IH] using rev_ind; [constructor|].
  rewrite buildResultMap_snoc. unfold mapAssign. cbn [map fst].
  constructor; [|now apply filter_keys_NoDup].
  rewrite in_map_iff. intros ((k & v) & Hk & Hin).
  apply filter_In in Hin. destruct Hin as [_ Hf].
  cbn [fst] in *. subst k. rewrite String.eqb_refl in Hf. discriminate.
Qed.

(** The map from relative paths to results holds one entry per path: a path
    no result has reads as the zero value, and a path several results share
    reads as the last of them. *)
Theorem resultMap_lookup (results : list FileHashResult) :
  NoDup (map fst (buildResultMap results)) /\
  (forall k : string,
      ~ In k (map RelPath results) ->
      mapIndex (buildResultMap results) k = zeroFileHashResult) /\
  (forall (rs1 rs2 : list FileHashResult) (r : FileHashResult),
      results = rs1 ++ r :: rs2 ->
      ~ In (RelPath r) (map RelPath rs2) ->
      mapIndex (buildResultMap results) (RelPath r) = r).
Proof.
  split; [apply buildResultMap_keys|].
  split; [apply buildResultMap_missing|].
  intros rs1 rs2 r -> Hr. now apply buildResultMap_last.
Qed.

(** What [main] hashes: the enumerated paths with the bytes read. *)
Local Notation reads_of input :=
  (map (fun x : FileInfo * list (list byte) => (FileInfo_RelPath (fst x), snd x))
       input).

Local Notation total_of input :=
  (fold_left (fun t fi => add64 t (FileInfo_Size fi)) (map fst input) 0).

Lemma packageInput_run (isDir : bool) (path baseName tracker : string)
    (mirrors : list string) (input : list (FileInfo * list (list byte))) :
  input <> [] ->
  let ps := calculatePieceSize M (total_of input) in
  exists tor,
    buildTorrent Separator isDir baseName tracker mirrors ps
      (concat (map sha1 (pieces_of ps (run_bytes (reads_of input)))))
      (map fst input) = Some tor /\
    packageInput sha1 sha256 M Separator isDir path baseName tracker mirrors input
    = Generated
        (buildMetalink Separator isDir baseName mirrors ps
           (map (result_of sha256 ps) (reads_of input)) (map fst input))
        tor.
Proof.
  intros Hne. cbv zeta. unfold packageInput.
  set (ps := calculatePieceSize M (total_of input)).
  assert (Hps : 0 < ps < 2 ^ 63).
  { pose proof (calculatePieceSize_range M (total_of input)) as H.
    unfold P_MIN, P_MAX in H. fold ps in H. lia. }
  assert (Hlen : (Z.of_nat (length (map fst input)) =? 0) = false).
  { apply Z.eqb_neq. destruct input; [contradiction | cbn; lia]. }
  rewrite Hlen.
  destruct (hashAll_run sha1 sha256 ps (reads_of input) Hps)
    as (mh & Hrun & Hres & Htor).
  rewrite Hrun, Hres, Htor.
  assert (Hsome : exists tor,
    buildTorrent Separator isDir baseName tracker mirrors ps
      (concat (map sha1 (pieces_of ps (run_bytes (reads_of input)))))
      (map fst input) = Some tor).
  { unfold buildTorrent. destruct isDir; [eexists; reflexivity|].
    destruct input; [contradiction|]. cbn [map]. eexists; reflexivity. }
  destruct Hsome as (tor & Htorrent).
  exists tor. split; [exact Htorrent|]. now rewrite Htorrent.
Qed.

(** With distinct relative paths the Metalink document lists the files in
    enumeration order, each with its name, the number of bytes read, the
    digest of those bytes, and one piece digest per piece of them. *)
Theorem metalink_file_entries (isDir : bool) (path baseName tracker : string)
    (mirrors : list string) (input : list (FileInfo * list (list byte))) :
  input <> [] ->
  NoDup (map (fun x => FileInfo_RelPath (fst x)) input) ->
  exists meta tor,
  packageInput sha1 sha256 M Separator isDir path baseName tracker mirrors input
  = Generated meta tor /\
  Forall2
    (fun x mf =>
       let bytes := concat (snd x) in
       MetalinkFile_Name mf
         = (if isDir
            then baseName ++ "/" ++ ToSlash Separator (FileInfo_RelPath (fst x))
            else ToSlash Separator (FileInfo_RelPath (fst x)))%string /\
       MetalinkFile_Size mf = wrap64 (len bytes) /\
       MetaHash_Value (MetalinkFile_Hash mf) = EncodeToString (sha256 bytes) /\
       map MetaPieceHash_Value (MetaPieces_Hashes (MetalinkFile_Pieces mf))
         = map (digest256 sha256)
               (pieces_of (MetaPieces_Length (MetalinkFile_Pieces mf)) bytes) /\
       Z.of_nat (length (MetaPieces_Hashes (MetalinkFile_Pieces mf)))
         = ceil_div (len bytes) (MetaPieces_Length (MetalinkFile_Pieces mf)))
    input (Metalink_Files meta).
Proof.
  intros Hne Hnodup.
  destruct (packageInput_run isDir path baseName tracker mirrors input Hne)
    as (tor' & _ & Hrun).
  eexists _, tor'. split; [exact Hrun|].
  set (ps := calculatePieceSize M (total_of input)) in *.
  assert (Hps : 0 < ps).
  { pose proof (calculatePieceSize_range M (total_of input)) as H.
    unfold P_MIN in H. fold ps in H. lia. }
  cbn [buildMetalink Metalink_Files]. rewrite map_map.
  apply Forall2_map_right_in. intros x Hin.
  assert (Hlookup :
    mapIndex (buildResultMap (map (result_of sha256 ps) (reads_of input)))
             (FileInfo_RelPath (fst x))
    = result_of sha256 ps (FileInfo_RelPath (fst x), snd x)).
  { destruct (in_split x input Hin) as (l1 & l2 & Hsplit).
    rewrite Hsplit in Hnodup |- *.
    rewrite !map_app. cbn [map].
    rewrite map_app in Hnodup. cbn [map] in Hnodup.
    apply NoDup_remove_2 in Hnodup.
    apply (buildResultMap_last _ _
             (result_of sha256 ps (FileInfo_RelPath (fst x), snd x))).
    cbn [result_of RelPath fst]. rewrite !map_map. cbn [RelPath result_of fst].
    intros H. apply Hnodup. apply in_or_app. now right. }
  unfold metalinkFile. rewrite Hlookup. cbv zeta.
  cbn [MetalinkFile_Name MetalinkFile_Size MetalinkFile_Hash MetaHash_Value
       MetalinkFile_Pieces MetaPieces_Hashes MetaPieces_Length].
  unfold result_of, file_bytes. cbn [Size FileSHA256 PieceHashes snd].
  split; [destruct isDir; reflexivity|].
  split; [reflexivity|]. split; [reflexivity|].
  split.
  - rewrite map_map. cbn [MetaPieceHash_Value]. now rewrite map_id.
  - rewrite !length_map. apply pieces_of_count. exact Hps.
Qed.

(** The two documents agree: the torrent's piece length is the one chosen
    for the sum of the enumerated sizes, lies between [P_MIN] and [P_MAX],
    and is the piece length of every Metalink file entry; the torrent is
    named after the input and the Metalink document points to it; with
    20-byte digests the [pieces] string holds 20 bytes per piece of the
    bytes read. *)
Theorem documents_agree (isDir : bool) (path baseName tracker : string)
    (mirrors : list string) (input : list (FileInfo * list (list byte))) :
  (forall d, len (sha1 d) = 20) ->
  input <> [] ->
  exists meta tor,
  packageInput sha1 sha256 M Separator isDir path baseName tracker mirrors input
  = Generated meta tor /\
  let ps := TorrentInfo_PieceLength (Torrent_Info tor) in
  ps = calculatePieceSize M (total_of input) /\
  P_MIN <= ps <= P_MAX /\
  Forall (fun mf => MetaPieces_Length (MetalinkFile_Pieces mf) = ps)
         (Metalink_Files meta) /\
  TorrentInfo_Name (Torrent_Info tor) = baseName /\
  map MetaURL_Value (Metalink_Metaurls meta) = [(baseName ++ ".torrent")%string] /\
  Torrent_Announce tor = tracker /\
  len (TorrentInfo_Pieces (Torrent_Info tor))
    = 20 * ceil_div (len (concat (map (fun x => concat (snd x)) input))) ps.
Proof.
  intros Hsize Hne.
  destruct (packageInput_run isDir path baseName tracker mirrors input Hne)
    as (tor' & Htor & Hrun).
  eexists _, tor'. split; [exact Hrun|].
  set (ps := calculatePieceSize M (total_of input)) in *.
  pose proof (calculatePieceSize_range M (total_of input)) as Hrange.
  fold ps in Hrange.
  assert (Hinfo :
    TorrentInfo_PieceLength (Torrent_Info tor') = ps /\
    TorrentInfo_Name (Torrent_Info tor') = baseName /\
    Torrent_Announce tor' = tracker /\
    TorrentInfo_Pieces (Torrent_Info tor')
      = concat (map sha1 (pieces_of ps (run_bytes (reads_of input))))).
  { unfold buildTorrent in Htor. destruct isDir.
    - injection Htor as <-. repeat split.
    - destruct (map fst input); [discriminate|].
      injection Htor as <-. repeat split. }
  destruct Hinfo as (Hlen & Hname & Hann & Hpieces).
  cbv zeta. rewrite Hlen, Hname, Hann, Hpieces.
  split; [reflexivity|]. split; [exact Hrange|].
  split; [|split; [reflexivity|split; [reflexivity|split; [reflexivity|]]]].
  - cbn [buildMetalink Metalink_Files]. apply Forall_map, Forall_forall.
    intros fi _. reflexivity.
  - rewrite (concat_fixed_length 20).
    + rewrite length_map, pieces_of_count by (unfold P_MIN in Hrange; lia).
      unfold run_bytes, file_bytes. rewrite map_map. reflexivity.
    + apply Forall_map, Forall_forall. intros d _. apply Hsize.
Qed.

(** The torrent of a single file carries that file's enumerated size and no
    file list; the torrent of a directory carries no length and lists the
    files in enumeration order with their enumerated sizes, each path cut at
    the separators into components that are never none, contain no
    separator and give the relative path back when joined. *)
Theorem torrent_layout (isDir : bool) (path baseName tracker : string)
    (mirrors : list string) (input : list (FileInfo * list (list byte))) :
  input <> [] ->
  exists meta tor,
  packageInput sha1 sha256 M Separator isDir path baseName tracker mirrors input
  = Generated meta tor /\
  Torrent_URLList tor = torrentURLList isDir baseName mirrors /\
  (isDir = false ->
   TorrentInfo_Files (Torrent_Info tor) = [] /\
   exists x rest, input = x :: rest /\
     TorrentInfo_Length (Torrent_Info tor) = FileInfo_Size (fst x)) /\
  (isDir = true ->
   TorrentInfo_Length (Torrent_Info tor) = 0 /\
   Forall2
     (fun x tf =>
        TorrentFileInfo_Length tf = FileInfo_Size (fst x) /\
        String.concat (String Separator EmptyString) (TorrentFileInfo_Path tf)
          = FileInfo_RelPath (fst x) /\
        TorrentFileInfo_Path tf <> [] /\
        Forall (fun c => ~ occurs Separator c) (TorrentFileInfo_Path tf))
     input (TorrentInfo_Files (Torrent_Info tor))).
Proof.
  intros Hne.
  destruct (packageInput_run isDir path baseName tracker mirrors input Hne)
    as (tor' & Htor & Hrun).
  eexists _, tor'. split; [exact Hrun|]. clear Hrun.
  unfold buildTorrent in Htor. destruct isDir.
  - injection Htor as <-. cbn [Torrent_URLList Torrent_Info TorrentInfo_Length
                                TorrentInfo_Files].
    split; [reflexivity|]. split; [discriminate|]. intros _.
    split; [reflexivity|]. rewrite map_map.
    apply Forall2_map_right. intros x.
    cbn [TorrentFileInfo_Length TorrentFileInfo_Path].
    split; [reflexivity|]. split; [apply Split_join|].
    split; [apply Split_nonempty | apply Split_clean].
  - destruct input as [|x rest]; [contradiction|]. cbn [map] in Htor.
    injection Htor as <-. cbn [Torrent_URLList Torrent_Info TorrentInfo_Length
                                TorrentInfo_Files].
    split; [reflexivity|]. split; [|discriminate]. intros _.
    split; [reflexivity|]. exists x, rest. auto.
Qed.

End Documents.

(** * The theorems at sample inputs *)

Lemma piece_accounting_holds_witness :
  0 < 4 < 2 ^ 63 /\
  exists mh',
    hashAll plain_digest plain_digest 4 sample_files = Done mh' /\
    Forall2
      (fun fi r =>
         exists pieces : list (list byte),
           concat pieces = file_bytes fi /\
           PieceHashes r = map (digest256 plain_digest) pieces /\
           piece_accounting 4 (len (file_bytes fi)) (map len pieces))
      sample_files (GetResults mh') /\
    exists pieces : list (list byte),
      concat pieces = run_bytes sample_files /\
      GetTorrentPieces mh' = concat (map plain_digest pieces) /\
      piece_accounting 4 (len (run_bytes sample_files)) (map len pieces).
Proof.
  split; [lia|].
  apply (piece_accounting_holds plain_digest plain_digest 4 sample_files). lia.
Defined.

Lemma Write_chunking_witness :
  wf (NewMultiHasher 4) /\
  writeAll plain_digest plain_digest (NewMultiHasher 4) sample_chunks
    = Write plain_digest plain_digest (NewMultiHasher 4) (concat sample_chunks) /\
  Write plain_digest plain_digest (NewMultiHasher 4) [] = Done (NewMultiHasher 4) /\
  (forall a b : list byte,
      Write plain_digest plain_digest (NewMultiHasher 4) (a ++ b)
      = (mh' <- Write plain_digest plain_digest (NewMultiHasher 4) a ;;
         Write plain_digest plain_digest mh' b)).
Proof.
  assert (Hwf : wf (NewMultiHasher 4)).
  { constructor; cbn; try reflexivity; unfold is_int64; lia. }
  split; [exact Hwf|].
  apply (Write_chunking plain_digest plain_digest (NewMultiHasher 4) sample_chunks Hwf).
Defined.

Lemma torrent_piece_count_witness :
  0 < 4 < 2 ^ 63 /\
  exists mh',
    hashAll plain_digest plain_digest 4 sample_files = Done mh' /\
    let digests := map plain_digest (pieces_of 4 (run_bytes sample_files)) in
    GetTorrentPieces mh' = concat digests /\
    Z.of_nat (length digests) = ceil_div (len (run_bytes sample_files)) 4 /\
    (len (run_bytes sample_files) = 0 -> GetTorrentPieces mh' = []).
Proof.
  split; [lia|].
  apply (torrent_piece_count plain_digest plain_digest 4 sample_files). lia.
Defined.

Lemma two_files_scenario_witness :
  len (concat sample_200KiB) = 200 * 1024 /\
  len (concat sample_100KiB) = 100 * 1024 /\
  exists mh',
    hashAll plain_digest plain_digest (256 * 1024)
      [("a"%string, sample_200KiB); ("b"%string, sample_100KiB)] = Done mh' /\
    map PieceHashes (GetResults mh')
      = [[digest256 plain_digest (concat sample_200KiB)];
         [digest256 plain_digest (concat sample_100KiB)]] /\
    GetTorrentPieces mh'
      = plain_digest (concat sample_200KiB
                      ++ firstn (Z.to_nat (56 * 1024)) (concat sample_100KiB))
        ++ plain_digest (skipn (Z.to_nat (56 * 1024)) (concat sample_100KiB)) /\
    len (firstn (Z.to_nat (56 * 1024)) (concat sample_100KiB)) = 56 * 1024 /\
    len (skipn (Z.to_nat (56 * 1024)) (concat sample_100KiB)) = 44 * 1024.
Proof.
  assert (H1 : len (concat sample_200KiB) = 200 * 1024) by (vm_compute; reflexivity).
  assert (H2 : len (concat sample_100KiB) = 100 * 1024) by (vm_compute; reflexivity).
  split; [exact H1|]. split; [exact H2|].
  apply (two_files_scenario plain_digest plain_digest "a" "b"
           sample_200KiB sample_100KiB H1 H2).
Defined.


Lemma result_size_and_order_witness :
  wf (NewMultiHasher 4) /\
  Forall (fun fi => sumZ (map len (snd fi)) < 2 ^ 63) sample_files /\
  (forall m : MultiHasher,
      GetResults (fst (EndFile plain_digest m))
      = GetResults m ++ [snd (EndFile plain_digest m)] /\
      Size (snd (EndFile plain_digest m)) = currentFileByteCount m) /\
  exists mh',
    hashFiles plain_digest plain_digest (NewMultiHasher 4) sample_files = Done mh' /\
    map (fun r => (RelPath r, Size r)) (GetResults mh')
    = map (fun r => (RelPath r, Size r)) (GetResults (NewMultiHasher 4))
      ++ map (fun fi => (fst fi, sumZ (map len (snd fi)))) sample_files.
Proof.
  assert (Hwf : wf (NewMultiHasher 4)).
  { constructor; cbn; try reflexivity; unfold is_int64; lia. }
  assert (Hsizes : Forall (fun fi => sumZ (map len (snd fi)) < 2 ^ 63) sample_files).
  { repeat constructor. }
  split; [exact Hwf|]. split; [exact Hsizes|].
  apply (result_size_and_order plain_digest plain_digest (NewMultiHasher 4)
           sample_files Hwf Hsizes).
Defined.

Lemma mirror_url_rule_witness :
  (nth_error slash_mirrors 0 = Some "https://example.org/pub//"%string /\
   nth_error slash_mirrors 1
     = Some "https://example.com/second_mirror/relevance.zip"%string) /\
  (nth_error (fileURLs "/" false "relevance.zip" slash_mirrors "relevance.zip") 0
     = Some {| Priority := 1;
               Value := "https://example.org/pub/relevance.zip" |} /\
   nth_error (torrentURLList false "relevance.zip" slash_mirrors) 0
     = Some "https://example.org/pub/relevance.zip"%string) /\
  (nth_error (fileURLs "/" false "relevance.zip" slash_mirrors "relevance.zip") 1
     = Some {| Priority := 2;
               Value := "https://example.com/second_mirror/relevance.zip" |} /\
   nth_error (torrentURLList false "relevance.zip" slash_mirrors) 1
     = Some "https://example.com/second_mirror/relevance.zip"%string) /\
  nth_error (fileURLs "/" true "dir" slash_mirrors "sub/f.txt") 0
    = Some {| Priority := 1; Value := "https://example.org/pub/dir/sub/f.txt" |} /\
  nth_error (torrentURLList true "dir" slash_mirrors) 0
    = Some "https://example.org/pub/"%string.
Proof.
  assert (H0 : nth_error slash_mirrors 0 = Some "https://example.org/pub//"%string)
    by reflexivity.
  assert (H1 : nth_error slash_mirrors 1
               = Some "https://example.com/second_mirror/relevance.zip"%string)
    by reflexivity.
  split; [split; [exact H0 | exact H1]|].
  destruct (mirror_url_rule "/" "relevance.zip" slash_mirrors 0 _ H0)
    as (_ & _ & Hjoined & _).
  destruct (mirror_url_rule "/" "relevance.zip" slash_mirrors 1 _ H1)
    as (_ & Hverbatim & _).
  destruct (mirror_url_rule "/" "dir" slash_mirrors 0 _ H0)
    as (_ & _ & _ & _ & Hdir & Hseed).
  split; [|split; [|split]].
  - apply Hjoined. intros H. apply HasSuffix_ends_with in H.
    vm_compute in H. discriminate H.
  - apply Hverbatim. exists "https://example.com/second_mirror/"%string. reflexivity.
  - exact (Hdir "sub/f.txt"%string).
  - exact Hseed.
Defined.

Lemma calculatePieceSize_monotone_witness :
  2 ^ 30 <= 100 * 2 ^ 30 /\
  calculatePieceSize RealMath (2 ^ 30) <= calculatePieceSize RealMath (100 * 2 ^ 30).
Proof.
  split; [lia|]. apply (calculatePieceSize_monotone (2 ^ 30) (100 * 2 ^ 30)). lia.
Defined.

Lemma file_result_contents_witness :
  0 < 4 < 2 ^ 63 /\
  exists mh',
    hashAll plain_digest plain_digest 4 sample_files = Done mh' /\
    Forall2
      (fun fi r =>
         RelPath r = fst fi /\
         FileSHA256 r = EncodeToString (plain_digest (file_bytes fi)) /\
         Z.of_nat (length (PieceHashes r)) = ceil_div (len (file_bytes fi)) 4 /\
         Err r = None)
      sample_files (GetResults mh').
Proof.
  split; [lia|].
  apply (file_result_contents plain_digest plain_digest 4 sample_files). lia.
Defined.

Lemma file_result_independent_witness :
  0 < 4 < 2 ^ 63 /\
  exists mh',
    hashAll plain_digest plain_digest 4 sample_files = Done mh' /\
    Forall2
      (fun fi r =>
         exists mh1,
           hashAll plain_digest plain_digest 4 [fi] = Done mh1 /\
           GetResults mh1 = [r])
      sample_files (GetResults mh').
Proof.
  split; [lia|].
  apply (file_result_independent plain_digest plain_digest 4 sample_files). lia.
Defined.

Lemma torrent_stream_of_concatenation_witness :
  0 < 4 < 2 ^ 63 /\
  run_bytes sample_files
    = run_bytes [("ab"%string, [[x01; x02; x03; x04; x05; x06; x07; x08; x09]])] /\
  exists mh1 mh2,
    hashAll plain_digest plain_digest 4 sample_files = Done mh1 /\
    hashAll plain_digest plain_digest 4
      [("ab"%string, [[x01; x02; x03; x04; x05; x06; x07; x08; x09]])] = Done mh2 /\
    GetTorrentPieces mh1 = GetTorrentPieces mh2.
Proof.
  split; [lia|]. split; [reflexivity|].
  apply (torrent_stream_of_concatenation plain_digest plain_digest 4 sample_files
           [("ab"%string, [[x01; x02; x03; x04; x05; x06; x07; x08; x09]])]);
    [lia | reflexivity].
Defined.

Lemma single_file_same_pieces_witness :
  0 < 4 < 2 ^ 63 /\
  exists mh' (pieces : list (list byte)),
    hashAll plain_digest plain_digest 4 [("a"%string, sample_chunks)] = Done mh' /\
    concat pieces = file_bytes ("a"%string, sample_chunks) /\
    map PieceHashes (GetResults mh') = [map (digest256 plain_digest) pieces] /\
    GetTorrentPieces mh' = concat (map plain_digest pieces).
Proof.
  split; [lia|].
  apply (single_file_same_pieces plain_digest plain_digest 4
           ("a"%string, sample_chunks)). lia.
Defined.

Lemma torrent_pieces_length_witness :
  (forall d, len (blank_digest20 d) = 20) /\
  0 < 4 < 2 ^ 63 /\
  exists mh',
    hashAll blank_digest20 plain_digest 4 sample_files = Done mh' /\
    len (GetTorrentPieces mh') = 20 * ceil_div (len (run_bytes sample_files)) 4.
Proof.
  assert (Hsize : forall d, len (blank_digest20 d) = 20) by (intros d; reflexivity).
  split; [exact Hsize|]. split; [lia|].
  apply (torrent_pieces_length blank_digest20 plain_digest 4 sample_files Hsize). lia.
Defined.

Lemma emitted_data_kept_witness :
  wf (NewMultiHasher 4) /\
  exists mh' (pieces : list byte) (rs : list FileHashResult),
    exec plain_digest plain_digest (NewMultiHasher 4) sample_calls = Done mh' /\
    GetTorrentPieces mh' = GetTorrentPieces (NewMultiHasher 4) ++ pieces /\
    GetResults mh' = GetResults (NewMultiHasher 4) ++ rs.
Proof.
  assert (Hwf : wf (NewMultiHasher 4)).
  { constructor; cbn; try reflexivity; unfold is_int64; lia. }
  split; [exact Hwf|].
  apply (emitted_data_kept plain_digest plain_digest (NewMultiHasher 4)
           sample_calls Hwf).
Defined.

Lemma empty_file_result_witness :
  wf (NewMultiHasher 4) /\
  concat [[]; @nil byte] = [] /\
  exists mh',
    hashFiles plain_digest plain_digest (NewMultiHasher 4)
      [("e"%string, [[]; []])] = Done mh' /\
    GetResults mh'
      = GetResults (NewMultiHasher 4)
        ++ [{| RelPath := "e"; Size := 0;
               FileSHA256 := EncodeToString (plain_digest []);
               PieceHashes := []; Err := None |}] /\
    GetTorrentPieces mh' = GetTorrentPieces (NewMultiHasher 4) /\
    torrentPieceBuffer mh' = torrentPieceBuffer (NewMultiHasher 4).
Proof.
  assert (Hwf : wf (NewMultiHasher 4)).
  { constructor; cbn; try reflexivity; unfold is_int64; lia. }
  split; [exact Hwf|]. split; [reflexivity|].
  apply (empty_file_result plain_digest plain_digest (NewMultiHasher 4) "e"
           [[]; []] Hwf). reflexivity.
Defined.

Lemma Write_zero_pieceSize_witness :
  pieceSize (NewMultiHasher 0) = 0 /\
  filePieceBuffer (NewMultiHasher 0) = 0 /\
  [x01] <> [] /\
  filePieceLoop plain_digest 7 (NewMultiHasher 0) [x01] = OutOfFuel.
Proof.
  assert (Hne : [x01] <> []) by discriminate.
  split; [reflexivity|]. split; [reflexivity|]. split; [exact Hne|].
  apply (Write_zero_pieceSize plain_digest 7 (NewMultiHasher 0) [x01]);
    [reflexivity | reflexivity | exact Hne].
Defined.

Lemma Write_negative_pieceSize_witness :
  - 2 ^ 63 <= -1 < 0 /\
  [x01] <> [] /\
  Write plain_digest plain_digest (NewMultiHasher (-1)) [x01] = Panic.
Proof.
  assert (Hne : [x01] <> []) by discriminate.
  split; [lia|]. split; [exact Hne|].
  apply (Write_negative_pieceSize plain_digest plain_digest (-1) [x01]);
    [lia | exact Hne].
Defined.

Lemma Finalize_twice_witness :
  0 < 4 < 2 ^ 63 /\
  exists mh',
    hashAll plain_digest plain_digest 4 sample_files = Done mh' /\
    (len (run_bytes sample_files) mod 4 = 0 -> Finalize plain_digest mh' = mh') /\
    (len (run_bytes sample_files) mod 4 <> 0 ->
     GetTorrentPieces (Finalize plain_digest mh')
       = GetTorrentPieces mh'
         ++ plain_digest (partial_piece 4 (run_bytes sample_files)) /\
     len (partial_piece 4 (run_bytes sample_files))
       = len (run_bytes sample_files) mod 4).
Proof.
  split; [lia|].
  apply (Finalize_twice plain_digest plain_digest 4 sample_files). lia.
Defined.

Lemma joined_url_single_slash_witness :
  nth_error sample_mirrors 0 = Some "https://example.com/"%string /\
  exists t slashes : string,
    "https://example.com/"%string = (t ++ slashes)%string /\
    all_slashes slashes /\ ~ ends_with t "/" /\
    (forall fiRelPath : string,
        option_map Value
          (nth_error (fileURLs "/" true "dir" sample_mirrors fiRelPath) 0)
        = Some (t ++ "/" ++ "dir" ++ "/" ++ ToSlash "/" fiRelPath)%string) /\
    nth_error (torrentURLList true "dir" sample_mirrors) 0 = Some (t ++ "/")%string.
Proof.
  assert (Hk : nth_error sample_mirrors 0 = Some "https://example.com/"%string)
    by reflexivity.
  split; [exact Hk|].
  apply (joined_url_single_slash "/" "dir" sample_mirrors 0 _ Hk).
Defined.

Lemma metalink_file_entries_witness :
  sample_input <> [] /\
  NoDup (map (fun x => FileInfo_RelPath (fst x)) sample_input) /\
  exists meta tor,
    packageInput plain_digest plain_digest RealMath "/" true "/data/dir" "dir"
      "https://tracker.example/announce" sample_mirrors sample_input
    = Generated meta tor /\
    Forall2
      (fun x mf =>
         let bytes := concat (snd x) in
         MetalinkFile_Name mf
           = ("dir" ++ "/" ++ ToSlash "/" (FileInfo_RelPath (fst x)))%string /\
         MetalinkFile_Size mf = wrap64 (len bytes) /\
         MetaHash_Value (MetalinkFile_Hash mf) = EncodeToString (plain_digest bytes) /\
         map MetaPieceHash_Value (MetaPieces_Hashes (MetalinkFile_Pieces mf))
           = map (digest256 plain_digest)
                 (pieces_of (MetaPieces_Length (MetalinkFile_Pieces mf)) bytes) /\
         Z.of_nat (length (MetaPieces_Hashes (MetalinkFile_Pieces mf)))
           = ceil_div (len bytes) (MetaPieces_Length (MetalinkFile_Pieces mf)))
      sample_input (Metalink_Files meta).
Proof.
  assert (Hne : sample_input <> []) by discriminate.
  assert (Hnodup : NoDup (map (fun x => FileInfo_RelPath (fst x)) sample_input)).
  { repeat constructor; cbn; intuition discriminate. }
  split; [exact Hne|]. split; [exact Hnodup|].
  apply (metalink_file_entries plain_digest plain_digest RealMath "/" true
           "/data/dir" "dir" "https://tracker.example/announce" sample_mirrors
           sample_input Hne Hnodup).
Defined.

Lemma documents_agree_witness :
  (forall d, len (blank_digest20 d) = 20) /\
  sample_input <> [] /\
  exists meta tor,
    packageInput blank_digest20 plain_digest RealMath "/" true "/data/dir" "dir"
      "https://tracker.example/announce" sample_mirrors sample_input
    = Generated meta tor /\
    TorrentInfo_PieceLength (Torrent_Info tor) = 256 * 1024 /\
    Forall (fun mf => MetaPieces_Length (MetalinkFile_Pieces mf) = 256 * 1024)
           (Metalink_Files meta) /\
    len (TorrentInfo_Pieces (Torrent_Info tor)) = 20.
Proof.
  assert (Hsize : forall d, len (blank_digest20 d) = 20) by (intros d; reflexivity).
  assert (Hne : sample_input <> []) by discriminate.
  split; [exact Hsize|]. split; [exact Hne|].
  destruct (documents_agree blank_digest20 plain_digest RealMath "/" true
              "/data/dir" "dir" "https://tracker.example/announce" sample_mirrors
              sample_input Hsize Hne)
    as (meta & tor & Hgen & Hps & _ & Hfiles & _ & _ & _ & Hpieces).
  exists meta, tor. split; [exact Hgen|].
  assert (Hval : TorrentInfo_PieceLength (Torrent_Info tor) = 256 * 1024).
  { rewrite Hps. change (fold_left _ _ 0) with 9.
    rewrite calculatePieceSize_RealMath_spec. reflexivity. }
  rewrite Hval in *. split; [reflexivity|]. split; [exact Hfiles|].
  rewrite Hpieces. reflexivity.
Defined.

Lemma torrent_layout_witness :
  sample_input <> [] /\
  exists meta tor,
    packageInput plain_digest plain_digest RealMath "/" true "/data/dir" "dir"
      "https://tracker.example/announce" sample_mirrors sample_input
    = Generated meta tor /\
    Torrent_URLList tor = torrentURLList true "dir" sample_mirrors /\
    (true = false ->
     TorrentInfo_Files (Torrent_Info tor) = [] /\
     exists x rest, sample_input = x :: rest /\
       TorrentInfo_Length (Torrent_Info tor) = FileInfo_Size (fst x)) /\
    (true = true ->
     TorrentInfo_Length (Torrent_Info tor) = 0 /\
     Forall2
       (fun x tf =>
          TorrentFileInfo_Length tf = FileInfo_Size (fst x) /\
          String.concat (String "/" EmptyString) (TorrentFileInfo_Path tf)
            = FileInfo_RelPath (fst x) /\
          TorrentFileInfo_Path tf <> [] /\
          Forall (fun c => ~ occurs "/" c) (TorrentFileInfo_Path tf))
       sample_input (TorrentInfo_Files (Torrent_Info tor))).
Proof.
  assert (Hne : sample_input <> []) by discriminate.
  split; [exact Hne|].
  apply (torrent_layout plain_digest plain_digest RealMath "/" true
           "/data/dir" "dir" "https://tracker.example/announce" sample_mirrors
           sample_input Hne).
Defined.
